(** * format_contact_list: a shallow embedding of [main.py]

    The program cleans a phone book held as a table of string rows:
    [format_name] re-flows the three name columns, [format_phone] rewrites
    phone numbers with one regular expression, [check_and_update_duplicate]
    merges rows that denote the same person and deletes the merged-away rows.

    Python strings are sequences of code points, so a string is a list of
    code points ([N]); rows are lists of strings and the table is a list of
    rows.  The table is mutated in place and indexing can raise
    [IndexError], so the stateful functions live in a small state monad
    whose state survives an exception. *)

From Stdlib Require Import String Ascii NArith ZArith List Lia.
From stdpp Require Import base list.

Open Scope nat_scope.

(** ** Strings *)

Abbreviation pystr := (list N).

Definition ch (a : ascii) : N := N_of_ascii a.

(** [py "abc"] is the Python string with the same (ASCII) characters. *)
Definition py (s : string) : pystr := map ch (list_ascii_of_string s).

(** Cyrillic small letters de, o, be: the marker of an extension. *)
Definition cyr_de : N := 1076%N.
Definition cyr_o : N := 1086%N.
Definition cyr_be : N := 1073%N.
Definition dob : pystr := [cyr_de; cyr_o; cyr_be].

Definition in_range (lo hi c : N) : bool := ((lo <=? c) && (c <=? hi))%N.

(** [str.isspace] on one code point, which is also [\s] of [re] on [str]
    patterns (CPython's [_PyUnicode_IsWhitespace]). *)
Definition is_space (c : N) : bool :=
  in_range 9 13 c || in_range 28 32 c || (c =? 133)%N || (c =? 160)%N
  || (c =? 5760)%N || in_range 8192 8202 c || in_range 8232 8233 c
  || (c =? 8239)%N || (c =? 8287)%N || (c =? 12288)%N.

Definition pystr_eqb (a b : pystr) : bool := bool_decide (a = b).

(** Truth value of a string: non-empty. *)
Definition truthy (s : pystr) : bool :=
  match s with [] => false | _ :: _ => true end.

(** [sep.join(parts)] *)
Fixpoint join (sep : pystr) (parts : list pystr) : pystr :=
  match parts with
  | [] => []
  | [p] => p
  | p :: ps => p ++ sep ++ join sep ps
  end.

(** [s.split()]: maximal runs of non-whitespace characters.  [tok] is the
    token being read. *)
Fixpoint split_from (tok : pystr) (s : pystr) : list pystr :=
  match s with
  | [] => if truthy tok then [tok] else []
  | c :: s' =>
      if is_space c
      then (if truthy tok then tok :: split_from [] s' else split_from [] s')
      else split_from (tok ++ [c]) s'
  end.

Definition split (s : pystr) : list pystr := split_from [] s.

(** ** Exceptions and the state monad *)

Inductive exn := IndexError.

Inductive outcome (A : Type) :=
| Ok (a : A)
| Raise (e : exn).
Arguments Ok {A} a.
Arguments Raise {A} e.

(** A computation over a mutable state [S]: the state is returned also
    when an exception is raised, as in-place updates made before the
    exception stay. *)
Definition M (S A : Type) := S -> outcome A * S.

Definition ret {S A} (a : A) : M S A := fun s => (Ok a, s).
Definition raise {S A} (e : exn) : M S A := fun s => (Raise e, s).
Definition bind {S A B} (m : M S A) (f : A -> M S B) : M S B :=
  fun s => match m s with
           | (Ok a, s') => f a s'
           | (Raise e, s') => (Raise e, s')
           end.

Notation "'let*' x ':=' m 'in' k" := (bind m (fun x => k))
  (at level 10, x name, m at level 200, k at level 200,
   format "'[v' 'let*'  x  ':='  m  'in' '/' k ']'").

(** [for x in xs: body(x)] *)
Fixpoint for_each {S A} (xs : list A) (body : A -> M S unit) : M S unit :=
  match xs with
  | [] => ret tt
  | x :: xs' => let* _ := body x in for_each xs' body
  end.

(** A [for] loop that also updates a local variable [acc]. *)
Fixpoint for_fold {S A B} (xs : list A) (acc : B) (body : A -> B -> M S B)
  : M S B :=
  match xs with
  | [] => ret acc
  | x :: xs' => let* acc' := body x acc in for_fold xs' acc' body
  end.

(** [range(lo, hi)] for natural bounds. *)
Definition range (lo hi : nat) : list nat := seq lo (hi - lo).

(** ** Rows and tables *)

Abbreviation row := (list pystr).
Abbreviation table := (list row).

(** [len(contacts_list)] *)
Definition table_len : M table nat := fun t => (Ok (length t), t).

(** [len(contacts_list[i])] *)
Definition row_len (i : nat) : M table nat :=
  fun t => match t !! i with
           | Some r => (Ok (length r), t)
           | None => (Raise IndexError, t)
           end.

(** [contacts_list[i][c]] *)
Definition read_cell (i c : nat) : M table pystr :=
  fun t => match t !! i with
           | Some r => match r !! c with
                       | Some v => (Ok v, t)
                       | None => (Raise IndexError, t)
                       end
           | None => (Raise IndexError, t)
           end.

(** [contacts_list[i][c] = v] *)
Definition write_cell (i c : nat) (v : pystr) : M table unit :=
  fun t => match t !! i with
           | Some r => if decide (c < length r)
                       then (Ok tt, <[i := <[c := v]> r]> t)
                       else (Raise IndexError, t)
           | None => (Raise IndexError, t)
           end.

(** [del contacts_list[i]] *)
Definition del_row (i : nat) : M table unit :=
  fun t => if decide (i < length t)
           then (Ok tt, delete i t)
           else (Raise IndexError, t).

(** ** Regular expressions, as [re] parses them *)

Inductive category := CATEGORY_DIGIT | CATEGORY_SPACE.

(** What may stand between square brackets. *)
Inductive class_item :=
| CLit (c : N)
| CRange (lo hi : N)
| CCat (k : category).

Inductive regex :=
| Empty
| Lit (c : N)
| Any
| Cat (k : category)
| In (items : list class_item)
| Seq (r1 r2 : regex)
| Branch (r1 r2 : regex)
| MaxRepeat (lo : nat) (hi : option nat) (r : regex)
| Group (n : nat) (r : regex).

Definition seq_all (rs : list regex) : regex := foldr Seq Empty rs.

(** A replacement template: literal characters and group references. *)
Inductive template_item :=
| TLit (c : N)
| TGroup (n : nat).

Definition tlit (s : string) : list template_item := map TLit (py s).

(** The text captured by each group; [None] for a group that took no part
    in the match. *)
Definition groups := nat -> option pystr.

Definition no_groups : groups := fun _ => None.

Definition set_group (n : nat) (v : pystr) (g : groups) : groups :=
  fun i => if Nat.eqb i n then Some v else g i.

(** The least number of characters a match of [r] consumes. *)
Fixpoint min_len (r : regex) : nat :=
  match r with
  | Empty => 0
  | Lit _ | Any | Cat _ | In _ => 1
  | Seq r1 r2 => min_len r1 + min_len r2
  | Branch r1 r2 => Nat.min (min_len r1) (min_len r2)
  | MaxRepeat lo _ r1 => lo * min_len r1
  | Group _ r1 => min_len r1
  end.

Section Phone.

(** [\d] on a [str] pattern is a Unicode decimal digit.  Below U+0660 the
    decimal digits are the ASCII ones; which higher code points are decimal
    digits depends on the Unicode tables of the interpreter and is left as
    a parameter. *)
Variable unicode_decimal : N -> bool.

Definition is_decimal (c : N) : bool :=
  if (c <? 1632)%N then in_range 48 57 c else unicode_decimal c.

Definition category_mem (k : category) (c : N) : bool :=
  match k with
  | CATEGORY_DIGIT => is_decimal c
  | CATEGORY_SPACE => is_space c
  end.

Definition class_item_mem (it : class_item) (c : N) : bool :=
  match it with
  | CLit x => (c =? x)%N
  | CRange lo hi => in_range lo hi c
  | CCat k => category_mem k c
  end.

Definition class_mem (items : list class_item) (c : N) : bool :=
  existsb (fun it => class_item_mem it c) items.

(** The backtracking matcher, in continuation-passing style: [rmatch r s g k]
    matches [r] at the start of [s] and hands the rest of the input and the
    groups to [k]; when [k] fails the next alternative of [r] is tried.
    Repeats are greedy. *)

Definition one_char {R} (p : N -> bool) (s : pystr) (g : groups)
    (k : pystr -> groups -> option R) : option R :=
  match s with
  | c :: s' => if p c then k s' g else None
  | [] => None
  end.

Definition below (hi : option nat) (count : nat) : bool :=
  match hi with
  | None => true
  | Some h => count <? h
  end.

(** A greedy repeat of [body], between [lo] and [hi] times: [count]
    repetitions are done.  A repetition past the [lo]-th must consume
    input, so [lo + length s] turns of the loop are enough and the fuel
    never runs out before the repeat is over. *)
Fixpoint repeat_loop {R}
    (body : pystr -> groups -> (pystr -> groups -> option R) -> option R)
    (lo : nat) (hi : option nat) (k : pystr -> groups -> option R)
    (fuel count : nat) (s : pystr) (g : groups) {struct fuel} : option R :=
  match fuel with
  | O => k s g
  | S fuel' =>
      if count <? lo
      then body s g (fun s' g' => repeat_loop body lo hi k fuel' (S count) s' g')
      else if below hi count
      then match body s g
                   (fun s' g' =>
                      if length s' <? length s
                      then repeat_loop body lo hi k fuel' (S count) s' g'
                      else None) with
           | Some x => Some x
           | None => k s g
           end
      else k s g
  end.

Fixpoint rmatch {R} (r : regex) (s : pystr) (g : groups)
    (k : pystr -> groups -> option R) {struct r} : option R :=
  match r with
  | Empty => k s g
  | Lit c => one_char (N.eqb c) s g k
  | Any => one_char (fun x => negb (x =? 10)%N) s g k
  | Cat c => one_char (category_mem c) s g k
  | In items => one_char (class_mem items) s g k
  | Seq r1 r2 => rmatch r1 s g (fun s' g' => rmatch r2 s' g' k)
  | Branch r1 r2 =>
      match rmatch r1 s g k with
      | Some x => Some x
      | None => rmatch r2 s g k
      end
  | MaxRepeat lo hi r1 =>
      repeat_loop (rmatch r1) lo hi k (lo + length s) 0 s g
  | Group n r1 =>
      rmatch r1 s g
        (fun s' g' => k s' (set_group n (take (length s - length s') s) g'))
  end.

(** A match of [r] that starts at the first character of [s]: the groups
    and the input after the match. *)
Definition match_at (r : regex) (s : pystr) : option (groups * pystr) :=
  rmatch r s no_groups (fun s' g' => Some (g', s')).

(** The leftmost match in [s]: the text before it, its groups, the text
    after it. *)
Fixpoint search (r : regex) (s : pystr) : option (pystr * groups * pystr) :=
  match match_at r s with
  | Some (g, rest) => Some ([], g, rest)
  | None =>
      match s with
      | [] => None
      | c :: s' =>
          match search r s' with
          | Some (pre, g, rest) => Some (c :: pre, g, rest)
          | None => None
          end
      end
  end.

(** A group that did not take part in the match expands to nothing. *)
Definition expand_item (g : groups) (it : template_item) : pystr :=
  match it with
  | TLit c => [c]
  | TGroup n => match g n with Some v => v | None => [] end
  end.

Definition expand (t : list template_item) (g : groups) : pystr :=
  concat (map (expand_item g) t).

(** [pattern.sub(template, s)] with no [count]: every match is replaced,
    and the search resumes where the last match ended.  No match of
    [pattern_compiled] is empty, so the rule for empty matches is left
    out. *)
Fixpoint sub_loop (fuel : nat) (r : regex) (t : list template_item)
    (s : pystr) : pystr :=
  match fuel with
  | O => s
  | S fuel' =>
      match search r s with
      | None => s
      | Some (pre, g, rest) => pre ++ expand t g ++ sub_loop fuel' r t rest
      end
  end.

Definition sub (r : regex) (t : list template_item) (s : pystr) : pystr :=
  sub_loop (S (length s)) r t s.

(** [[\s-]*] *)
Definition separators : regex :=
  MaxRepeat 0 None (In [CCat CATEGORY_SPACE; CLit (ch "-")]).

(** [\d{n}] *)
Definition digits (n : nat) : regex :=
  MaxRepeat n (Some n) (Cat CATEGORY_DIGIT).

(** [r?] *)
Definition opt (r : regex) : regex := MaxRepeat 0 (Some 1) r.

(** [(\s*\(?(доб.)\s*(\d{4})\)?)]: the dot is the wildcard. *)
Definition extension : regex :=
  Group 6
    (seq_all
       [ MaxRepeat 0 None (Cat CATEGORY_SPACE);
         opt (Lit (ch "("));
         Group 7 (seq_all [Lit cyr_de; Lit cyr_o; Lit cyr_be; Any]);
         MaxRepeat 0 None (Cat CATEGORY_SPACE);
         Group 8 (digits 4);
         opt (Lit (ch ")")) ]).

Definition pattern_compiled : regex :=
  seq_all
    [ opt (Group 1 (Branch (Seq (Lit (ch "+")) (Lit (ch "7"))) (Lit (ch "8"))));
      separators;
      opt (In [CLit (ch "("); CLit (ch " ")]);
      Group 2 (digits 3);
      opt (In [CRange (ch " ") (ch ")")]);
      separators;
      Group 3 (digits 3);
      separators;
      Group 4 (digits 2);
      separators;
      Group 5 (digits 2);
      opt extension ].

(** [r"+7(\2)\3-\4-\5 \7\8"] *)
Definition new_pattern : list template_item :=
  tlit "+7(" ++ [TGroup 2] ++ tlit ")" ++ [TGroup 3] ++ tlit "-"
  ++ [TGroup 4] ++ tlit "-" ++ [TGroup 5] ++ tlit " "
  ++ [TGroup 7; TGroup 8].

Definition format_phone (phone : pystr) : pystr :=
  sub pattern_compiled new_pattern phone.



End Phone.

(** ** The functions of [main.py] *)

(** [full_name[i]] *)
Definition index {A} (l : list A) (i : nat) : outcome A :=
  match l !! i with
  | Some x => Ok x
  | None => Raise IndexError
  end.

(** [format_name]: the loop appends [full_name[i]] for [i] in [range(3)],
    and the empty string where the index is out of range. *)
Definition format_name (old_full_name : list pystr) : list pystr :=
  let full_name := split (join (py " ") old_full_name) in
  fold_left
    (fun new_full_name i =>
       match index full_name i with
       | Ok name => new_full_name ++ [name]
       | Raise IndexError => new_full_name ++ [[]]
       end)
    (range 0 3) [].

(** One turn of the loop of [format_contact_list], on the row at index [i].
    The slice [contact[0:3]] never raises; the three assignments and the
    access to column 5 do on a short row. *)
Definition format_contact (unicode_decimal : N -> bool) (i : nat)
  : M table unit :=
  fun t =>
    match t !! i with
    | None => (Raise IndexError, t)
    | Some contact =>
        match format_name (take 3 contact) with
        | [n0; n1; n2] =>
            (let* _ := write_cell i 0 n0 in
             let* _ := write_cell i 1 n1 in
             let* _ := write_cell i 2 n2 in
             let* phone := read_cell i 5 in
             write_cell i 5 (format_phone unicode_decimal phone)) t
        | _ => (Raise IndexError, t) (* never taken: three names come back *)
        end
    end.

Definition format_contact_list (unicode_decimal : N -> bool) : M table unit :=
  let* n := table_len in
  for_each (range 0 n) (format_contact unicode_decimal).

(** The arguments [start_column] and [end_column] are integers or [None]. *)
Definition clamp_start (start_column : option Z) : Z :=
  match start_column with
  | None => 0%Z
  | Some s => if (s <? 0)%Z then 0%Z else s
  end.

Definition clamp_end (end_column : option Z) (width : nat) : Z :=
  match end_column with
  | None => Z.of_nat width
  | Some e => if (Z.of_nat width <? e)%Z then Z.of_nat width else e
  end.

(** [range(start_column, end_column)] once [0 <= start_column]. *)
Definition column_range (start_column end_column : Z) : list nat :=
  seq (Z.to_nat start_column) (Z.to_nat (end_column - start_column)).

(** The body of the loop of [merging_contact_lines]: a non-empty field of
    the duplicate row overwrites the field of the origin row. *)
Definition merge_column (row_origin row_duplicate column : nat)
  : M table unit :=
  let* v := read_cell row_duplicate column in
  if truthy v
  then let* v' := read_cell row_duplicate column in
       write_cell row_origin column v'
  else ret tt.

Definition merging_contact_lines (row_origin row_duplicate : nat)
    (start_column end_column : option Z) : M table unit :=
  let start_column := clamp_start start_column in
  let* width := row_len row_origin in
  let end_column := clamp_end end_column width in
  if (end_column <? start_column)%Z then raise IndexError
  else
    for_each (column_range start_column end_column)
      (merge_column row_origin row_duplicate).

(** [sorted(indexes, reverse=True)] *)
Fixpoint insert_desc (x : nat) (l : list nat) : list nat :=
  match l with
  | [] => [x]
  | y :: l' => if y <? x then x :: y :: l' else y :: insert_desc x l'
  end.

Definition sorted_reverse (l : list nat) : list nat :=
  fold_right insert_desc [] l.

Definition removing_duplicates (indexes_to_delete : list nat) : M table unit :=
  for_each (sorted_reverse indexes_to_delete) del_row.

(** [removing_duplicates] as a caller other than the scan may use it, the
    indexes being any integers: [del contacts_list[index]] counts a
    negative [index] from the end of the list. *)
Definition del_row_int (index : Z) : M table unit :=
  fun t => if (index <? 0)%Z
           then if (index + Z.of_nat (length t) <? 0)%Z
                then (Raise IndexError, t)
                else (Ok tt, delete (Z.to_nat (index + Z.of_nat (length t))) t)
           else del_row (Z.to_nat index) t.

Fixpoint insert_desc_int (x : Z) (l : list Z) : list Z :=
  match l with
  | [] => [x]
  | y :: l' => if (y <? x)%Z then x :: y :: l' else y :: insert_desc_int x l'
  end.

Definition sorted_reverse_int (l : list Z) : list Z :=
  fold_right insert_desc_int [] l.

Definition removing_duplicates_int (indexes_to_delete : list Z)
  : M table unit :=
  for_each (sorted_reverse_int indexes_to_delete) del_row_int.

(** The test of the scan on rows [i] and [j], with the short-circuit
    evaluation of [and] and [or]. *)
Definition same_person (i j : nat) : M table bool :=
  let* a0 := read_cell i 0 in
  let* b0 := read_cell j 0 in
  if negb (pystr_eqb a0 b0) then ret false else
  let* a1 := read_cell i 1 in
  let* b1 := read_cell j 1 in
  if negb (pystr_eqb a1 b1) then ret false else
  let* a2 := read_cell i 2 in
  let* b2 := read_cell j 2 in
  if pystr_eqb a2 b2 then ret true else
  let* a2' := read_cell i 2 in
  if pystr_eqb a2' [] then ret true else
  let* b2' := read_cell j 2 in
  ret (pystr_eqb b2' []).

(** The body of the inner loop, for the pair [(i, j)]. *)
Definition scan_pair (i j : nat) (indexes_to_delete : list nat)
  : M table (list nat) :=
  let* dup := same_person i j in
  if dup
  then let* _ := merging_contact_lines i j (Some 2%Z) None in
       ret (indexes_to_delete ++ [j])
  else ret indexes_to_delete.

(** The inner loop, for the origin row [i]. *)
Definition scan_row (i : nat) (indexes_to_delete : list nat)
  : M table (list nat) :=
  let* n := table_len in
  for_fold (range (i + 1) n) indexes_to_delete (scan_pair i).

(** The two nested loops: the indexes recorded for deletion. *)
Definition duplicate_scan : M table (list nat) :=
  let* n := table_len in
  for_fold (range 0 n) [] scan_row.

Definition check_and_update_duplicate : M table unit :=
  let* indexes_to_delete := duplicate_scan in
  removing_duplicates indexes_to_delete.

(** ** Specification-side definitions *)

(** The first three tokens of the space-joined input, with the empty
    string where there is no such token. *)
Definition first_three_tokens (old_full_name : list pystr) : list pystr :=
  let tokens := split (join (py " ") old_full_name) in
  [nth 0 tokens []; nth 1 tokens []; nth 2 tokens []].

(** The identity rule on two rows: equal last names, equal first names,
    and patronymics that are equal or one of which is empty. *)
Definition identity_rule (o d : row) : Prop :=
  o !! 0 = d !! 0 /\ o !! 1 = d !! 1
  /\ (o !! 2 = d !! 2 \/ o !! 2 = Some [] \/ d !! 2 = Some []).

(** The origin row [o] after the columns [cols] of the duplicate row [d]
    were merged into it, one after the other. *)
Fixpoint merge_cols (cols : list nat) (o d : row) : row :=
  match cols with
  | [] => o
  | c :: cols' =>
      match d !! c with
      | Some v => merge_cols cols' (if truthy v then <[c := v]> o else o) d
      | None => o
      end
  end.

(** The origin row after the merge that the scan makes. *)
Definition merge_row (o d : row) : row :=
  merge_cols (seq 2 (length o - 2)) o d.

(** The boolean that the test of the scan computes on two rows. *)
Definition identity_rule_b (o d : row) : bool :=
  match o !! 0, d !! 0, o !! 1, d !! 1, o !! 2, d !! 2 with
  | Some a0, Some b0, Some a1, Some b1, Some a2, Some b2 =>
      pystr_eqb a0 b0 && pystr_eqb a1 b1
      && (pystr_eqb a2 b2 || pystr_eqb a2 [] || pystr_eqb b2 [])
  | _, _, _, _, _, _ => false
  end.

(** A row with the given last and first name and no patronymic. *)
Definition named (ln fn : pystr) (r : row) : Prop :=
  r !! 0 = Some ln /\ r !! 1 = Some fn /\ r !! 2 = Some [].

(** A string without whitespace. *)
Definition no_space (tok : pystr) : Prop :=
  Forall (fun c => is_space c = false) tok.

(** The scan as a function of the rows.  [absorbed o ds] is the origin row
    [o] after the later rows [ds] were compared with it one after the other,
    each one that satisfies the rule being merged into it at once;
    [recorded o j ds] lists the indexes of the rows merged, [j] being the
    index of the first row of [ds]. *)
Fixpoint absorbed (o : row) (ds : list row) : row :=
  match ds with
  | [] => o
  | d :: ds' => absorbed (if identity_rule_b o d then merge_row o d else o) ds'
  end.

Fixpoint recorded (o : row) (j : nat) (ds : list row) : list nat :=
  match ds with
  | [] => []
  | d :: ds' =>
      if identity_rule_b o d
      then j :: recorded (merge_row o d) (S j) ds'
      else recorded o (S j) ds'
  end.

(** The table after the scan of the rows [todo], and the indexes recorded,
    [i] being the index of the first row of [todo].  A row is compared as a
    duplicate before it is an origin, so it is still as in the input when it
    is compared with an earlier row. *)
Fixpoint scanned (todo : list row) : table :=
  match todo with
  | [] => []
  | o :: later => absorbed o later :: scanned later
  end.

Fixpoint all_recorded (i : nat) (todo : list row) : list nat :=
  match todo with
  | [] => []
  | o :: later => recorded o (S i) later ++ all_recorded (S i) later
  end.

(** The rows of [t] whose index, counted from [k], is not in [idxs]: the
    table that a fresh filtered sequence would be. *)
Fixpoint keep_rows_from (k : nat) (idxs : list nat) (t : table) : table :=
  match t with
  | [] => []
  | r :: t' =>
      if bool_decide (k ∈ idxs)
      then keep_rows_from (S k) idxs t'
      else r :: keep_rows_from (S k) idxs t'
  end.

Definition keep_rows (idxs : list nat) (t : table) : table :=
  keep_rows_from 0 idxs t.

(** Sorted from the largest to the smallest. *)
Fixpoint descending (l : list nat) : Prop :=
  match l with
  | [] => True
  | x :: l' => Forall (fun y => y <= x) l' /\ descending l'
  end.

(** What [format_contact_list] makes of a row of at least six fields: the
    three names, columns 3 and 4, the phone, and the columns after it. *)
Definition format_row (unicode_decimal : N -> bool) (contact : row) : row :=
  format_name (take 3 contact) ++ take 2 (drop 3 contact)
  ++ match contact !! 5 with
     | Some phone => [format_phone unicode_decimal phone]
     | None => []
     end
  ++ drop 6 contact.

(** Reading and writing one field of a row, and running on row [i] of the
    table a computation on a row. *)
Definition row_read (c : nat) : M row pystr :=
  fun r => match r !! c with
           | Some v => (Ok v, r)
           | None => (Raise IndexError, r)
           end.

Definition row_write (c : nat) (v : pystr) : M row unit :=
  fun r => if decide (c < length r)
           then (Ok tt, <[c := v]> r)
           else (Raise IndexError, r).

Definition on_row {A} (i : nat) (m : M row A) : M table A :=
  fun t => match t !! i with
           | Some r => (fst (m r), <[i := snd (m r)]> t)
           | None => (Raise IndexError, t)
           end.

(** The turn of the loop of [format_contact_list], on the row alone. *)
Definition format_contact_row (unicode_decimal : N -> bool) : M row unit :=
  fun contact =>
    match format_name (take 3 contact) with
    | [n0; n1; n2] =>
        (let* _ := row_write 0 n0 in
         let* _ := row_write 1 n1 in
         let* _ := row_write 2 n2 in
         let* phone := row_read 5 in
         row_write 5 (format_phone unicode_decimal phone)) contact
    | _ => (Raise IndexError, contact)
    end.

(** The number of decimal digits in a string, and the least number of
    decimal digits a match of [r] consumes. *)
Definition count_decimal (unicode_decimal : N -> bool) (s : pystr) : nat :=
  length (List.filter (is_decimal unicode_decimal) s).

Fixpoint min_digits (r : regex) : nat :=
  match r with
  | Cat CATEGORY_DIGIT => 1
  | Empty | Lit _ | Any | Cat CATEGORY_SPACE | In _ => 0
  | Seq r1 r2 => min_digits r1 + min_digits r2
  | Branch r1 r2 => Nat.min (min_digits r1) (min_digits r2)
  | MaxRepeat lo _ r1 => lo * min_digits r1
  | Group _ r1 => min_digits r1
  end.

(** ** Sample tables *)

(** An origin row and a duplicate of it that carries the patronymic. *)
Definition sample_origin : row :=
  [py "Ivanov"; py "Ivan"; []; py "ACME"; []; py "89161234567"].
Definition sample_duplicate : row :=
  [py "Ivanov"; py "Ivan"; py "Petrovich"; []; []; py "+7(916)123-45-67"].
Definition sample_table : table := [sample_origin; sample_duplicate].

(** Three rows of one person, without patronymic, with three phones. *)
Definition three_phones : table :=
  [ [py "Ivanov"; py "Ivan"; []; []; []; py "+7(916)123-45-67 "];
    [py "Ivanov"; py "Ivan"; []; []; []; py "+7(495)765-43-21 "];
    [py "Ivanov"; py "Ivan"; []; []; []; py "+7(812)555-00-11 "] ].

(** Three normalized rows of people who share the last and first name:
    the first has no patronymic, the others have different ones. *)
Definition three_patronymics : table :=
  [ [py "Ivanov"; py "Ivan"; []; []; []; py "101"];
    [py "Ivanov"; py "Ivan"; py "Petrovich"; []; []; py "102"];
    [py "Ivanov"; py "Ivan"; py "Sergeevich"; []; []; py "103"] ].

(** Three rows of one person followed by a row of somebody else. *)
Definition three_and_another : table :=
  [ [py "Ivanov"; py "Ivan"; []; []; []; py "101"];
    [py "Ivanov"; py "Ivan"; []; []; []; py "102"];
    [py "Ivanov"; py "Ivan"; []; []; []; py "103"];
    [py "Petrov"; py "Petr"; []; []; []; py "104"] ].

(** A table of decimal digits with no digit above U+0660, for examples. *)
Definition ascii_only : N -> bool := fun _ => false.

(** An origin row and a duplicate that has only the three name columns. *)
Definition narrow_table : table :=
  [sample_origin; [py "Ivanov"; py "Ivan"; py "Petrovich"]].

(** Two different people. *)
Definition two_people : table :=
  [ [py "Ivanov"; py "Ivan"; []; []; []; py "101"];
    [py "Petrov"; py "Petr"; []; []; []; py "104"] ].

(** ** The monad on the table *)

Lemma bind_ok {S A B} (m : M S A) (f : A -> M S B) s a s' :
  m s = (Ok a, s') -> bind m f s = f a s'.
Proof. intros H. unfold bind. now rewrite H. Qed.

Lemma bind_raise {S A B} (m : M S A) (f : A -> M S B) s e s' :
  m s = (Raise e, s') -> bind m f s = (Raise e, s').
Proof. intros H. unfold bind. now rewrite H. Qed.

Lemma read_cell_ok (t : table) i c (r : row) v :
  t !! i = Some r -> r !! c = Some v -> read_cell i c t = (Ok v, t).
Proof. intros Hr Hv. unfold read_cell. now rewrite Hr, Hv. Qed.

Lemma write_cell_ok (t : table) i c (r : row) v :
  t !! i = Some r -> c < length r ->
  write_cell i c v t = (Ok tt, <[i := <[c := v]> r]> t).
Proof.
  intros Hr Hc. unfold write_cell. rewrite Hr.
  destruct (decide (c < length r)); [reflexivity | lia].
Qed.

Lemma row_len_ok (t : table) i (r : row) :
  t !! i = Some r -> row_len i t = (Ok (length r), t).
Proof. intros Hr. unfold row_len. now rewrite Hr. Qed.

(** ** Merging one row into another *)

Lemma merge_cols_length cols : forall o d,
  length (merge_cols cols o d) = length o.
Proof.
  induction cols as [|c cols IH]; intros o d; simpl; [reflexivity|].
  destruct (d !! c) as [v|]; [|reflexivity].
  rewrite IH. destruct (truthy v); [apply length_insert | reflexivity].
Qed.

Lemma merge_cols_lookup_notin cols : forall (o d : row) c,
  c ∉ cols -> merge_cols cols o d !! c = o !! c.
Proof.
  induction cols as [|c' cols IH]; intros o d c Hc; simpl; [reflexivity|].
  apply not_elem_of_cons in Hc as [Hne Hc].
  destruct (d !! c') as [v|]; [|reflexivity].
  rewrite IH by assumption.
  destruct (truthy v); [|reflexivity].
  apply list_lookup_insert_ne. congruence.
Qed.

Lemma merge_cols_lookup_in cols : forall (o d : row) c x v,
  NoDup cols -> c ∈ cols -> Forall (fun k => k < length d) cols ->
  o !! c = Some x -> d !! c = Some v ->
  merge_cols cols o d !! c = Some (if truthy v then v else x).
Proof.
  induction cols as [|c' cols IH]; intros o d c x v Hnd Hc Hlen Ho Hd; simpl.
  - now apply elem_of_nil in Hc.
  - apply NoDup_cons in Hnd as [Hnotin Hnd].
    apply Forall_cons in Hlen as [Hc' Hlen].
    destruct (lookup_lt_is_Some_2 d c' Hc') as [v' Hv']. rewrite Hv'.
    apply elem_of_cons in Hc as [->|Hc].
    + rewrite merge_cols_lookup_notin by assumption.
      assert (v' = v) as -> by congruence.
      destruct (truthy v); [|assumption].
      apply list_lookup_insert_eq. now apply lookup_lt_Some in Ho.
    + assert (c <> c') by (intros ->; contradiction).
      apply IH; try assumption.
      destruct (truthy v'); [|assumption].
      rewrite list_lookup_insert_ne by congruence. assumption.
Qed.

Lemma for_each_merge_columns i j (d : row) cols : forall (o : row) (t : table),
  t !! i = Some o -> t !! j = Some d -> i <> j ->
  Forall (fun c => c < length o) cols -> length o <= length d ->
  for_each cols (merge_column i j) t
  = (Ok tt, <[i := merge_cols cols o d]> t).
Proof.
  induction cols as [|c cols IH]; intros o t Hi Hj Hne Hcols Hlen; simpl.
  - unfold ret. now rewrite list_insert_id.
  - apply Forall_cons in Hcols as [Hc Hcols].
    destruct (lookup_lt_is_Some_2 d c ltac:(lia)) as [v Hv]. rewrite Hv.
    assert (merge_column i j c t
            = (Ok tt, <[i := if truthy v then <[c := v]> o else o]> t)) as Hstep.
    { unfold merge_column.
      rewrite (bind_ok _ _ _ _ _ (read_cell_ok t j c d v Hj Hv)).
      destruct (truthy v).
      - rewrite (bind_ok _ _ _ _ _ (read_cell_ok t j c d v Hj Hv)).
        now apply write_cell_ok.
      - unfold ret. now rewrite list_insert_id. }
    rewrite (bind_ok _ _ _ _ _ Hstep).
    set (o' := if truthy v then <[c := v]> o else o).
    assert (length o' = length o) as Hlen'.
    { unfold o'. destruct (truthy v); [apply length_insert | reflexivity]. }
    rewrite (IH o').
    + now rewrite list_insert_insert_eq.
    + apply list_lookup_insert_eq. now apply lookup_lt_Some in Hi.
    + rewrite list_lookup_insert_ne by assumption. assumption.
    + assumption.
    + now rewrite Hlen'.
    + now rewrite Hlen'.
Qed.

Lemma seq_all_lt start len : Forall (fun c => c < start + len) (seq start len).
Proof.
  apply Forall_forall. intros c Hc.
  apply list_elem_of_In, in_seq in Hc. lia.
Qed.

Lemma column_range_from_2 (w : nat) :
  column_range (clamp_start (Some 2%Z)) (clamp_end None w) = seq 2 (w - 2).
Proof.
  unfold column_range, clamp_start, clamp_end.
  change (2 <? 0)%Z with false. cbv iota.
  replace (Z.to_nat (Z.of_nat w - 2)) with (w - 2) by lia. reflexivity.
Qed.

(** The call made by the scan, [start_column=2] and no [end_column], on
    two different rows of which the duplicate is at least as wide as the
    origin: the table afterwards, in closed form. *)
Lemma merging_from_patronymic (t : table) i j (o d : row) :
  t !! i = Some o -> t !! j = Some d -> i <> j ->
  2 <= length o -> length o <= length d ->
  merging_contact_lines i j (Some 2%Z) None t
  = (Ok tt, <[i := merge_cols (seq 2 (length o - 2)) o d]> t).
Proof.
  intros Hi Hj Hne Ho Hd. unfold merging_contact_lines.
  rewrite (bind_ok _ _ _ _ _ (row_len_ok t i o Hi)).
  rewrite column_range_from_2.
  replace (clamp_end None (length o) <? clamp_start (Some 2%Z))%Z with false.
  - apply for_each_merge_columns; try assumption.
    eapply Forall_impl; [apply seq_all_lt|]. simpl. intros; lia.
  - symmetry. apply Z.ltb_ge. unfold clamp_start, clamp_end. simpl. lia.
Qed.

(** The loop of [merging_contact_lines] raises nothing while the columns
    stay within the origin row and the duplicate row is as wide. *)
Lemma for_each_merge_columns_no_raise i j w cols : forall (t : table),
  (exists o d : row, t !! i = Some o /\ t !! j = Some d
                     /\ length o = w /\ w <= length d) ->
  Forall (fun c => c < w) cols ->
  exists t', for_each cols (merge_column i j) t = (Ok tt, t').
Proof.
  induction cols as [|c cols IH]; intros t (o & d & Hi & Hj & Ho & Hd) Hcols.
  - exists t. reflexivity.
  - apply Forall_cons in Hcols as [Hc Hcols]. simpl.
    destruct (lookup_lt_is_Some_2 d c ltac:(lia)) as [v Hv].
    assert (exists t1, merge_column i j c t = (Ok tt, t1)
                       /\ exists o1 d1 : row, t1 !! i = Some o1 /\ t1 !! j = Some d1
                                              /\ length o1 = w /\ w <= length d1)
      as (t1 & Hstep & Hinv).
    { unfold merge_column.
      rewrite (bind_ok _ _ _ _ _ (read_cell_ok t j c d v Hj Hv)).
      destruct (truthy v).
      - rewrite (bind_ok _ _ _ _ _ (read_cell_ok t j c d v Hj Hv)).
        exists (<[i := <[c := v]> o]> t). split.
        + apply write_cell_ok; [assumption | lia].
        + exists (<[c := v]> o).
          assert (i < length t) by now apply lookup_lt_Some in Hi.
          destruct (decide (i = j)) as [<-|Hne].
          * exists (<[c := v]> o).
            rewrite list_lookup_insert_eq by assumption.
            rewrite length_insert. repeat split; [assumption | lia].
          * exists d. rewrite list_lookup_insert_eq by assumption.
            rewrite list_lookup_insert_ne by assumption.
            rewrite length_insert. repeat split; assumption.
      - exists t. split; [reflexivity|]. exists o, d. repeat split; assumption. }
    rewrite (bind_ok _ _ _ _ _ Hstep). apply IH; assumption.
Qed.

Lemma column_range_bound (s e : Z) (w : nat) :
  (0 <= s)%Z -> (e <= Z.of_nat w)%Z ->
  Forall (fun c => c < w) (column_range s e).
Proof.
  intros Hs He. unfold column_range. apply Forall_forall. intros c Hc.
  apply list_elem_of_In, in_seq in Hc. lia.
Qed.

Lemma clamp_start_nonneg sc : (0 <= clamp_start sc)%Z.
Proof.
  unfold clamp_start. destruct sc as [s|]; [|lia].
  destruct (Z.ltb_spec s 0); lia.
Qed.

Lemma clamp_end_le ec w : (clamp_end ec w <= Z.of_nat w)%Z.
Proof.
  unfold clamp_end. destruct ec as [e|]; [|lia].
  destruct (Z.ltb_spec (Z.of_nat w) e); lia.
Qed.

(** C8: what the merge of the scan does to the table.  On a table whose
    row [i] (the origin, at least two fields wide) and row [j] (the
    duplicate, at least as wide as the origin) are different rows,
    [merging_contact_lines] with [start_column=2] returns normally and
    replaces the origin by a row of the same width in which every field
    from column 2 on is the duplicate's field when that is non-empty and
    the origin's old field otherwise; columns 0 and 1 of the origin and
    every other row of the table are as before. *)
Theorem merge_takes_nonempty_fields_from_column_2
    (t : table) (i j : nat) (o d : row) :
  t !! i = Some o -> t !! j = Some d -> i <> j ->
  2 <= length o -> length o <= length d ->
  exists o' : row,
    merging_contact_lines i j (Some 2%Z) None t = (Ok tt, <[i := o']> t)
    /\ length o' = length o
    /\ (forall c x v, 2 <= c -> o !! c = Some x -> d !! c = Some v ->
        o' !! c = Some (if truthy v then v else x))
    /\ (forall c, c < 2 -> o' !! c = o !! c)
    /\ (forall k, k <> i -> (<[i := o']> t) !! k = t !! k)
    /\ length (<[i := o']> t) = length t.
Proof.
  intros Hi Hj Hne Ho Hd.
  exists (merge_cols (seq 2 (length o - 2)) o d).
  split; [now apply merging_from_patronymic|].
  split; [apply merge_cols_length|].
  split; [|split; [|split]].
  - intros c x v Hc Hx Hv.
    assert (c < length o) by now apply lookup_lt_Some in Hx.
    apply merge_cols_lookup_in; try assumption.
    + apply NoDup_seq.
    + apply list_elem_of_In, in_seq. lia.
    + eapply Forall_impl; [apply seq_all_lt|]. simpl. intros; lia.
  - intros c Hc. apply merge_cols_lookup_notin.
    intros Hin. apply list_elem_of_In, in_seq in Hin. lia.
  - intros k Hk. apply list_lookup_insert_ne. congruence.
  - apply length_insert.
Qed.

Lemma merge_takes_nonempty_fields_witness :
  exists o' : row,
    merging_contact_lines 0 1 (Some 2%Z) None sample_table
    = (Ok tt, <[0 := o']> sample_table)
    /\ length o' = length sample_origin
    /\ (forall c x v, 2 <= c -> sample_origin !! c = Some x ->
        sample_duplicate !! c = Some v ->
        o' !! c = Some (if truthy v then v else x))
    /\ (forall c, c < 2 -> o' !! c = sample_origin !! c)
    /\ (forall k, k <> 0 -> (<[0 := o']> sample_table) !! k = sample_table !! k)
    /\ length (<[0 := o']> sample_table) = length sample_table.
Proof.
  apply (merge_takes_nonempty_fields_from_column_2
           sample_table 0 1 sample_origin sample_duplicate);
    [reflexivity | reflexivity | lia | simpl; lia | simpl; lia].
Defined.

(** ** The duplicate scan *)

Lemma pystr_eqb_true a b : pystr_eqb a b = true <-> a = b.
Proof. unfold pystr_eqb. apply bool_decide_eq_true. Qed.

Lemma pystr_eqb_false a b : pystr_eqb a b = false <-> a <> b.
Proof. unfold pystr_eqb. apply bool_decide_eq_false. Qed.

Lemma identity_rule_b_spec (o d : row) :
  3 <= length o -> 3 <= length d ->
  identity_rule_b o d = true <-> identity_rule o d.
Proof.
  intros Ho Hd. unfold identity_rule_b, identity_rule.
  destruct (lookup_lt_is_Some_2 o 0 ltac:(lia)) as [a0 ->].
  destruct (lookup_lt_is_Some_2 o 1 ltac:(lia)) as [a1 ->].
  destruct (lookup_lt_is_Some_2 o 2 ltac:(lia)) as [a2 ->].
  destruct (lookup_lt_is_Some_2 d 0 ltac:(lia)) as [b0 ->].
  destruct (lookup_lt_is_Some_2 d 1 ltac:(lia)) as [b1 ->].
  destruct (lookup_lt_is_Some_2 d 2 ltac:(lia)) as [b2 ->].
  rewrite !andb_true_iff, !orb_true_iff, !pystr_eqb_true.
  split.
  - intros [[-> ->] [[->| ->]| ->]]; auto.
  - intros (H0 & H1 & H2). repeat split; try congruence.
    destruct H2 as [H2|[H2|H2]]; [left; left|left; right|right]; congruence.
Qed.

Lemma same_person_computes (t : table) i j (o d : row) :
  t !! i = Some o -> t !! j = Some d -> 3 <= length o -> 3 <= length d ->
  same_person i j t = (Ok (identity_rule_b o d), t).
Proof.
  intros Hi Hj Ho Hd. unfold same_person, identity_rule_b.
  destruct (lookup_lt_is_Some_2 o 0 ltac:(lia)) as [a0 Ha0].
  destruct (lookup_lt_is_Some_2 o 1 ltac:(lia)) as [a1 Ha1].
  destruct (lookup_lt_is_Some_2 o 2 ltac:(lia)) as [a2 Ha2].
  destruct (lookup_lt_is_Some_2 d 0 ltac:(lia)) as [b0 Hb0].
  destruct (lookup_lt_is_Some_2 d 1 ltac:(lia)) as [b1 Hb1].
  destruct (lookup_lt_is_Some_2 d 2 ltac:(lia)) as [b2 Hb2].
  rewrite Ha0, Ha1, Ha2, Hb0, Hb1, Hb2.
  rewrite (bind_ok _ _ _ _ _ (read_cell_ok t i 0 o a0 Hi Ha0)).
  rewrite (bind_ok _ _ _ _ _ (read_cell_ok t j 0 d b0 Hj Hb0)).
  destruct (pystr_eqb a0 b0); [|reflexivity]. cbn [negb andb].
  rewrite (bind_ok _ _ _ _ _ (read_cell_ok t i 1 o a1 Hi Ha1)).
  rewrite (bind_ok _ _ _ _ _ (read_cell_ok t j 1 d b1 Hj Hb1)).
  destruct (pystr_eqb a1 b1); [|reflexivity]. cbn [negb andb].
  rewrite (bind_ok _ _ _ _ _ (read_cell_ok t i 2 o a2 Hi Ha2)).
  rewrite (bind_ok _ _ _ _ _ (read_cell_ok t j 2 d b2 Hj Hb2)).
  destruct (pystr_eqb a2 b2); [reflexivity|]. cbn [orb].
  rewrite (bind_ok _ _ _ _ _ (read_cell_ok t i 2 o a2 Hi Ha2)).
  destruct (pystr_eqb a2 []); [reflexivity|]. cbn [orb].
  rewrite (bind_ok _ _ _ _ _ (read_cell_ok t j 2 d b2 Hj Hb2)).
  reflexivity.
Qed.

(** One turn of the inner loop, in closed form. *)
Lemma scan_pair_computes (t : table) i j idx (o d : row) :
  t !! i = Some o -> t !! j = Some d -> i <> j ->
  3 <= length o -> length o <= length d ->
  scan_pair i j idx t
  = if identity_rule_b o d
    then (Ok (idx ++ [j]), <[i := merge_row o d]> t)
    else (Ok idx, t).
Proof.
  intros Hi Hj Hne Ho Hd. unfold scan_pair.
  rewrite (bind_ok _ _ _ _ _
             (same_person_computes t i j o d Hi Hj Ho ltac:(lia))).
  destruct (identity_rule_b o d); [|reflexivity].
  rewrite (bind_ok _ _ _ _ _
             (merging_from_patronymic t i j o d Hi Hj Hne ltac:(lia) Hd)).
  reflexivity.
Qed.

Lemma merge_row_length o d : length (merge_row o d) = length o.
Proof. apply merge_cols_length. Qed.

Lemma merge_row_names (o d : row) c : c < 2 -> merge_row o d !! c = o !! c.
Proof.
  intros Hc. apply merge_cols_lookup_notin.
  intros Hin. apply list_elem_of_In, in_seq in Hin. lia.
Qed.

Lemma merge_row_field (o d : row) c x v :
  2 <= c -> length o <= length d -> o !! c = Some x -> d !! c = Some v ->
  merge_row o d !! c = Some (if truthy v then v else x).
Proof.
  intros Hc Hlen Hx Hv.
  assert (c < length o) by now apply lookup_lt_Some in Hx.
  apply merge_cols_lookup_in; try assumption.
  - apply NoDup_seq.
  - apply list_elem_of_In, in_seq. lia.
  - eapply Forall_impl; [apply seq_all_lt|]. simpl. intros; lia.
Qed.

Lemma named_width ln fn r : named ln fn r -> 3 <= length r.
Proof. intros (_ & _ & H). apply lookup_lt_Some in H. lia. Qed.

Lemma named_identity_rule ln fn o d :
  named ln fn o -> named ln fn d -> identity_rule_b o d = true.
Proof.
  intros Ho Hd.
  apply identity_rule_b_spec; [now apply named_width in Ho | now apply named_width in Hd |].
  destruct Ho as (Ho0 & Ho1 & Ho2), Hd as (Hd0 & Hd1 & Hd2).
  unfold identity_rule. rewrite Ho0, Ho1, Ho2, Hd0, Hd1, Hd2. auto.
Qed.

Lemma named_merge_row ln fn o d :
  named ln fn o -> named ln fn d -> length o <= length d ->
  named ln fn (merge_row o d).
Proof.
  intros (Ho0 & Ho1 & Ho2) (Hd0 & Hd1 & Hd2) Hlen. unfold named.
  rewrite !merge_row_names by lia.
  rewrite (merge_row_field o d 2 [] []) by (assumption || lia).
  auto.
Qed.

Lemma scan_pair_named ln fn (t : table) i j idx (o d : row) :
  t !! i = Some o -> t !! j = Some d -> i <> j ->
  named ln fn o -> named ln fn d -> length o <= length d ->
  scan_pair i j idx t = (Ok (idx ++ [j]), <[i := merge_row o d]> t).
Proof.
  intros Hi Hj Hne Ho Hd Hlen.
  rewrite (scan_pair_computes t i j idx o d Hi Hj Hne
             (named_width _ _ _ Ho) Hlen).
  now rewrite (named_identity_rule ln fn o d Ho Hd).
Qed.

Lemma del_row_ok (t : table) i :
  i < length t -> del_row i t = (Ok tt, delete i t).
Proof. intros H. unfold del_row. destruct (decide (i < length t)); [reflexivity|lia]. Qed.

Lemma del_row_raise (t : table) i :
  length t <= i -> del_row i t = (Raise IndexError, t).
Proof. intros H. unfold del_row. destruct (decide (i < length t)); [lia|reflexivity]. Qed.

(** The scan of three rows of one person without patronymic records the
    index 2 twice: once as a duplicate of row 0, once as one of row 1. *)
Lemma duplicate_scan_three_named ln fn (r0 r1 r2 : row) :
  named ln fn r0 -> named ln fn r1 -> named ln fn r2 ->
  length r0 = length r1 -> length r1 = length r2 ->
  duplicate_scan [r0; r1; r2]
  = (Ok [1; 2; 2],
     [merge_row (merge_row r0 r1) r2; merge_row r1 r2; r2]).
Proof.
  intros H0 H1 H2 L01 L12.
  pose proof (named_merge_row ln fn r0 r1 H0 H1 ltac:(lia)) as Ha1.
  pose proof (merge_row_length r0 r1) as La1.
  unfold duplicate_scan, bind at 1, table_len.
  cbn [length range Nat.sub seq for_fold].
  assert (scan_row 0 [] [r0; r1; r2]
          = (Ok [1; 2], [merge_row (merge_row r0 r1) r2; r1; r2])) as S0.
  { unfold scan_row, bind at 1, table_len.
    cbn [length range Nat.sub Nat.add seq for_fold].
    rewrite (bind_ok _ _ _ _ _
               (scan_pair_named ln fn [r0; r1; r2] 0 1 [] r0 r1
                  eq_refl eq_refl ltac:(lia) H0 H1 ltac:(lia))).
    cbn [app]. change (<[0 := ?x]> [r0; r1; r2]) with [x; r1; r2].
    rewrite (bind_ok _ _ _ _ _
               (scan_pair_named ln fn [merge_row r0 r1; r1; r2] 0 2 [1]
                  (merge_row r0 r1) r2
                  eq_refl eq_refl ltac:(lia) Ha1 H2 ltac:(lia))).
    reflexivity. }
  rewrite (bind_ok _ _ _ _ _ S0).
  assert (scan_row 1 [1; 2] [merge_row (merge_row r0 r1) r2; r1; r2]
          = (Ok [1; 2; 2],
             [merge_row (merge_row r0 r1) r2; merge_row r1 r2; r2])) as S1.
  { unfold scan_row, bind at 1, table_len.
    cbn [length range Nat.sub Nat.add seq for_fold].
    rewrite (bind_ok _ _ _ _ _
               (scan_pair_named ln fn
                  [merge_row (merge_row r0 r1) r2; r1; r2] 1 2 [1; 2] r1 r2
                  eq_refl eq_refl ltac:(lia) H1 H2 ltac:(lia))).
    reflexivity. }
  rewrite (bind_ok _ _ _ _ _ S1).
  reflexivity.
Qed.

(** C1: three rows with the same last and first name, no patronymic and
    the same width (whatever their phone fields) do not collapse into one
    row.  The scan records index 2 twice, and the second deletion at
    index 2 finds a table of two rows: [check_and_update_duplicate] raises
    [IndexError] and leaves two rows in the table. *)
Theorem three_rows_of_one_person_raise
    (ln fn : pystr) (r0 r1 r2 : row) :
  named ln fn r0 -> named ln fn r1 -> named ln fn r2 ->
  length r0 = length r1 -> length r1 = length r2 ->
  check_and_update_duplicate [r0; r1; r2]
  = (Raise IndexError, [merge_row (merge_row r0 r1) r2; merge_row r1 r2]).
Proof.
  intros H0 H1 H2 L01 L12. unfold check_and_update_duplicate.
  rewrite (bind_ok _ _ _ _ _
             (duplicate_scan_three_named ln fn r0 r1 r2 H0 H1 H2 L01 L12)).
  unfold removing_duplicates.
  change (sorted_reverse [1; 2; 2]) with [2; 2; 1].
  cbn [for_each].
  set (a := merge_row (merge_row r0 r1) r2). set (b := merge_row r1 r2).
  assert (del_row 2 [a; b; r2] = (Ok tt, [a; b])) as D1
    by (apply del_row_ok; simpl; lia).
  assert (del_row 2 [a; b] = (Raise IndexError, [a; b])) as D2
    by (apply del_row_raise; simpl; lia).
  rewrite (bind_ok _ _ _ _ _ D1).
  now rewrite (bind_raise _ _ _ _ _ D2).
Qed.

Lemma three_rows_of_one_person_witness :
  check_and_update_duplicate three_phones
  = (Raise IndexError,
     [ [py "Ivanov"; py "Ivan"; []; []; []; py "+7(812)555-00-11 "];
       [py "Ivanov"; py "Ivan"; []; []; []; py "+7(812)555-00-11 "] ]).
Proof.
  apply (three_rows_of_one_person_raise (py "Ivanov") (py "Ivan"));
    repeat split; reflexivity.
Defined.

(** C7, as amended: the identity rule is applied to the rows as they are
    when the pair is compared.  For rows [i < j] of the current table,
    both with the three name fields and the duplicate as wide as the
    origin, the turn of the inner loop for [(i, j)] either finds the
    identity rule true of the two rows, records [j] and merges row [j]
    into row [i], or finds it false and changes nothing. *)
Theorem scan_pair_follows_identity_rule
    (t : table) (i j : nat) (idx : list nat) (o d : row) :
  t !! i = Some o -> t !! j = Some d -> i < j ->
  3 <= length o -> length o <= length d ->
  (identity_rule o d
   /\ scan_pair i j idx t = (Ok (idx ++ [j]), <[i := merge_row o d]> t))
  \/ (~ identity_rule o d /\ scan_pair i j idx t = (Ok idx, t)).
Proof.
  intros Hi Hj Hlt Ho Hd.
  rewrite (scan_pair_computes t i j idx o d Hi Hj ltac:(lia) Ho Hd).
  pose proof (identity_rule_b_spec o d Ho ltac:(lia)) as Hspec.
  destruct (identity_rule_b o d).
  - left. split; [now apply Hspec | reflexivity].
  - right. split; [|reflexivity].
    intros H. apply Hspec in H. discriminate.
Qed.

Lemma scan_pair_follows_identity_rule_witness :
  (identity_rule [py "Ivanov"; py "Ivan"; []; []; []; py "101"]
                 [py "Ivanov"; py "Ivan"; py "Petrovich"; []; []; py "102"]
   /\ scan_pair 0 1 [] three_patronymics
      = (Ok [1],
         [ [py "Ivanov"; py "Ivan"; py "Petrovich"; []; []; py "102"];
           [py "Ivanov"; py "Ivan"; py "Petrovich"; []; []; py "102"];
           [py "Ivanov"; py "Ivan"; py "Sergeevich"; []; []; py "103"] ]))
  \/ (~ identity_rule [py "Ivanov"; py "Ivan"; []; []; []; py "101"]
                      [py "Ivanov"; py "Ivan"; py "Petrovich"; []; []; py "102"]
      /\ scan_pair 0 1 [] three_patronymics = (Ok [], three_patronymics)).
Proof.
  apply (scan_pair_follows_identity_rule three_patronymics 0 1 []);
    [reflexivity | reflexivity | lia | simpl; lia | simpl; lia].
Defined.

(** C7 as stated fails: rows 0 and 2 of the normalized table
    [three_patronymics] satisfy the identity rule (row 0 has no
    patronymic), but when the scan compares them row 0 already carries
    the patronymic merged from row 1, so index 2 is not recorded and
    row 2 stays in the table. *)
Lemma scan_compares_the_updated_origin :
  (forall unicode_decimal,
      format_contact_list unicode_decimal three_patronymics
      = (Ok tt, three_patronymics))
  /\ (exists o d : row,
         three_patronymics !! 0 = Some o /\ three_patronymics !! 2 = Some d
         /\ identity_rule o d)
  /\ duplicate_scan three_patronymics
     = (Ok [1],
        [ [py "Ivanov"; py "Ivan"; py "Petrovich"; []; []; py "102"];
          [py "Ivanov"; py "Ivan"; py "Petrovich"; []; []; py "102"];
          [py "Ivanov"; py "Ivan"; py "Sergeevich"; []; []; py "103"] ])
  /\ check_and_update_duplicate three_patronymics
     = (Ok tt,
        [ [py "Ivanov"; py "Ivan"; py "Petrovich"; []; []; py "102"];
          [py "Ivanov"; py "Ivan"; py "Sergeevich"; []; []; py "103"] ]).
Proof.
  split; [intros nd; vm_compute; reflexivity|].
  split.
  - eexists _, _. split; [reflexivity|]. split; [reflexivity|].
    unfold identity_rule. simpl. auto.
  - split; vm_compute; reflexivity.
Qed.

(** ** Deleting the recorded rows *)

(** C3: on [three_and_another] the scan records the indexes 1, 2 and 2,
    and the removal step deletes at index 2 twice: the row of Petrov,
    which was never recorded, is deleted as well, and one row is left
    where the recorded indexes 1 and 2 would leave two. *)
Theorem removal_deletes_an_unrecorded_row :
  fst (duplicate_scan three_and_another) = Ok [1; 2; 2]
  /\ sorted_reverse [1; 2; 2] = [2; 2; 1]
  /\ check_and_update_duplicate three_and_another
     = (Ok tt, [ [py "Ivanov"; py "Ivan"; []; []; []; py "103"] ])
  /\ three_and_another !! 3
     = Some [py "Petrov"; py "Petr"; []; []; []; py "104"]
  /\ length (snd (check_and_update_duplicate three_and_another))
     <> length three_and_another - length (remove_dups [1; 2; 2]).
Proof.
  repeat split; try (vm_compute; reflexivity).
  vm_compute. discriminate.
Qed.

(** ** Deleting rows at distinct indexes *)

Lemma insert_desc_perm x l : insert_desc x l ≡ₚ x :: l.
Proof.
  induction l as [|y l IH]; simpl; [reflexivity|].
  destruct (y <? x); [reflexivity|].
  rewrite IH. apply Permutation_swap.
Qed.

Lemma sorted_reverse_perm l : sorted_reverse l ≡ₚ l.
Proof.
  induction l as [|x l IH]; simpl; [reflexivity|].
  rewrite insert_desc_perm. now rewrite IH.
Qed.

Lemma insert_desc_descending x l :
  descending l -> descending (insert_desc x l).
Proof.
  induction l as [|y l IH]; simpl.
  - intros _. split; [constructor | exact I].
  - intros [Hy Hl]. destruct (Nat.ltb_spec y x) as [Hlt|Hge]; simpl.
    + split; [|split; assumption].
      apply Forall_cons. split; [lia|].
      eapply Forall_impl; [exact Hy|]. simpl. intros; lia.
    + split; [|now apply IH].
      rewrite insert_desc_perm. apply Forall_cons. split; assumption.
Qed.

Lemma sorted_reverse_descending l : descending (sorted_reverse l).
Proof.
  induction l as [|x l IH]; simpl; [exact I|].
  now apply insert_desc_descending.
Qed.

Lemma keep_rows_from_ext (l l' : list nat) (t : table) : forall k,
  (forall x, x ∈ l <-> x ∈ l') ->
  keep_rows_from k l t = keep_rows_from k l' t.
Proof.
  induction t as [|r t IH]; intros k H; simpl; [reflexivity|].
  rewrite (IH (S k) H).
  destruct (decide (k ∈ l)) as [Hin|Hin].
  - rewrite !bool_decide_eq_true_2; [reflexivity | now apply H | assumption].
  - rewrite !bool_decide_eq_false_2; [reflexivity | | assumption].
    intros Hin'. now apply H in Hin'.
Qed.

Lemma keep_rows_from_below (l : list nat) (t : table) : forall k,
  Forall (fun y => y < k) l -> keep_rows_from k l t = t.
Proof.
  induction t as [|r t IH]; intros k H; simpl; [reflexivity|].
  rewrite bool_decide_eq_false_2.
  - f_equal. apply IH. eapply Forall_impl; [exact H|]. simpl. intros; lia.
  - intros Hin. rewrite Forall_forall in H. apply H in Hin. lia.
Qed.

(** Deleting the row at the largest index first leaves the rows at the
    smaller indexes where they were. *)
Lemma keep_rows_from_delete (l : list nat) (t : table) : forall k x,
  Forall (fun y => y < k + x) l ->
  keep_rows_from k l (delete x t) = keep_rows_from k ((k + x) :: l) t.
Proof.
  induction t as [|r t IH]; intros k x H; [reflexivity|].
  destruct x as [|x]; simpl.
  - rewrite Nat.add_0_r in *.
    rewrite bool_decide_eq_true_2 by (apply elem_of_cons; now left).
    rewrite keep_rows_from_below by assumption.
    symmetry. apply keep_rows_from_below.
    apply Forall_cons. split; [lia|].
    eapply Forall_impl; [exact H|]. simpl. intros; lia.
  - replace (k + S x) with (S k + x) in * by lia.
    rewrite (IH (S k) x H).
    destruct (decide (k ∈ l)) as [Hin|Hin].
    + rewrite !bool_decide_eq_true_2;
        [reflexivity | apply elem_of_cons; now right | assumption].
    + rewrite !bool_decide_eq_false_2; [reflexivity | | assumption].
      intros Hin'. apply elem_of_cons in Hin' as [Heq|Hin']; [lia | contradiction].
Qed.

Lemma for_each_del_row_descending (l : list nat) : forall t : table,
  descending l -> NoDup l -> Forall (fun i => i < length t) l ->
  for_each l del_row t = (Ok tt, keep_rows l t)
  /\ length (keep_rows l t) = length t - length l.
Proof.
  induction l as [|x l IH]; intros t Hdesc Hnd Hlen.
  - unfold keep_rows. rewrite keep_rows_from_below by constructor.
    split; [reflexivity | simpl; lia].
  - destruct Hdesc as [Hle Hdesc].
    apply NoDup_cons in Hnd as [Hx Hnd].
    apply Forall_cons in Hlen as [Hxt Hlen].
    assert (Forall (fun y => y < x) l) as Hlt.
    { apply Forall_forall. intros y Hy.
      rewrite Forall_forall in Hle. specialize (Hle y Hy).
      assert (y <> x) by (intros ->; contradiction). lia. }
    assert (length (delete x t) = length t - 1) as Hdel.
    { apply length_delete. now apply lookup_lt_is_Some_2. }
    destruct (IH (delete x t) Hdesc Hnd) as [Hrun Hkeep].
    { rewrite Hdel. eapply Forall_impl; [exact Hlt|]. simpl. intros; lia. }
    simpl for_each.
    rewrite (bind_ok _ _ _ _ _ (del_row_ok t x Hxt)), Hrun.
    unfold keep_rows in *.
    rewrite (keep_rows_from_delete l t 0 x Hlt) in *. simpl Nat.add in *.
    split; [reflexivity|]. rewrite Hkeep, Hdel. simpl. lia.
Qed.

(** When no index is recorded twice (and each is an index of the table),
    [removing_duplicates] removes exactly the rows at the recorded indexes:
    the table becomes the sequence of the other rows, in their order, and
    is shorter by the number of indexes. *)
Lemma removing_duplicates_distinct (idxs : list nat) (t : table) :
  NoDup idxs -> Forall (fun i => i < length t) idxs ->
  removing_duplicates idxs t = (Ok tt, keep_rows idxs t)
  /\ length (keep_rows idxs t) = length t - length idxs.
Proof.
  intros Hnd Hlen. unfold removing_duplicates.
  pose proof (sorted_reverse_perm idxs) as Hperm.
  destruct (for_each_del_row_descending (sorted_reverse idxs) t) as [Hrun Hkeep].
  - apply sorted_reverse_descending.
  - now rewrite Hperm.
  - now rewrite Hperm.
  - assert (keep_rows (sorted_reverse idxs) t = keep_rows idxs t) as E.
    { apply keep_rows_from_ext. intros x. now rewrite Hperm. }
    rewrite E in *. split; [assumption|].
    rewrite Hkeep. now rewrite Hperm.
Qed.

(** ** The scan as a fold over the rows *)

Lemma absorbed_length (ds : list row) : forall o,
  length (absorbed o ds) = length o.
Proof.
  induction ds as [|d ds IH]; intros o; simpl; [reflexivity|].
  rewrite IH. destruct (identity_rule_b o d);
    [apply merge_row_length | reflexivity].
Qed.

(** The inner loop, from the row at index [j] on. *)
Lemma scan_row_from w i (pre : list row) (ds : list row) :
  forall (o : row) (mid : list row) idx j,
    3 <= w -> length pre = i -> j = S (i + length mid) ->
    length o = w -> Forall (fun r : row => length r = w) ds ->
    for_fold (seq j (length ds)) idx (scan_pair i) (pre ++ o :: mid ++ ds)
    = (Ok (idx ++ recorded o j ds), pre ++ absorbed o ds :: mid ++ ds).
Proof.
  induction ds as [|d ds IH]; intros o mid idx j Hw Hpre Hj Ho Hds;
    cbn [length seq for_fold absorbed recorded].
  - unfold ret. now rewrite !app_nil_r.
  - apply Forall_cons in Hds as [Hd Hds].
    assert ((pre ++ o :: mid ++ d :: ds) !! i = Some o) as Hi
      by now apply list_lookup_middle.
    assert ((pre ++ o :: mid ++ d :: ds) !! j = Some d) as Hjd.
    { change (pre ++ o :: mid ++ d :: ds) with (pre ++ (o :: mid) ++ d :: ds).
      rewrite app_assoc. apply list_lookup_middle.
      rewrite length_app. simpl. lia. }
    pose proof (scan_pair_computes _ i j idx o d Hi Hjd ltac:(lia)
                  ltac:(lia) ltac:(lia)) as Hstep.
    assert (forall x : row,
               pre ++ x :: mid ++ d :: ds = pre ++ x :: (mid ++ [d]) ++ ds) as E
      by (intros x; now rewrite <- app_assoc).
    destruct (identity_rule_b o d); rewrite (bind_ok _ _ _ _ _ Hstep).
    + rewrite insert_app_r_alt by lia.
      replace (i - length pre) with 0 by lia. simpl insert.
      rewrite E, (IH (merge_row o d) (mid ++ [d]) (idx ++ [j]) (S j));
        try assumption.
      * now rewrite <- E, <- app_assoc.
      * rewrite length_app. simpl. lia.
      * now rewrite merge_row_length.
    + rewrite E, (IH o (mid ++ [d]) idx (S j)); try assumption.
      * now rewrite <- E.
      * rewrite length_app. simpl. lia.
Qed.

(** The outer loop, from the row at index [i] on. *)
Lemma scan_rows_from w (todo : list row) :
  forall (done : list row) i idx,
    3 <= w -> length done = i -> Forall (fun r : row => length r = w) todo ->
    for_fold (seq i (length todo)) idx scan_row (done ++ todo)
    = (Ok (idx ++ all_recorded i todo), done ++ scanned todo).
Proof.
  induction todo as [|o later IH]; intros done i idx Hw Hdone Htodo;
    cbn [length seq for_fold scanned all_recorded].
  - unfold ret. now rewrite !app_nil_r.
  - apply Forall_cons in Htodo as [Ho Hlater].
    assert (scan_row i idx (done ++ o :: later)
            = (Ok (idx ++ recorded o (S i) later),
               done ++ absorbed o later :: later)) as Hrow.
    { unfold scan_row, bind at 1, table_len, range.
      replace (length (done ++ o :: later) - (i + 1)) with (length later)
        by (rewrite length_app; simpl; lia).
      replace (i + 1) with (S i) by lia.
      apply (scan_row_from w i done later o [] idx (S i));
        try assumption; simpl; lia. }
    rewrite (bind_ok _ _ _ _ _ Hrow).
    rewrite (cons_middle (absorbed o later)), app_assoc.
    rewrite (IH (done ++ [absorbed o later]) (S i)); try assumption.
    + now rewrite <- !app_assoc.
    + rewrite length_app. simpl. lia.
Qed.

(** On a table whose rows all have the same width, at least 3, the two
    nested loops return normally; they compute the fold [scanned] and
    record the indexes [all_recorded]. *)
Lemma duplicate_scan_refines (w : nat) (t : table) :
  3 <= w -> Forall (fun r : row => length r = w) t ->
  duplicate_scan t = (Ok (all_recorded 0 t), scanned t).
Proof.
  intros Hw Ht. unfold duplicate_scan, bind at 1, table_len, range.
  rewrite Nat.sub_0_r.
  apply (scan_rows_from w t [] 0 []); [assumption | reflexivity | assumption].
Qed.

Lemma scanned_length (t : list row) : length (scanned t) = length t.
Proof. induction t as [|o t IH]; simpl; [reflexivity | now rewrite IH]. Qed.

Lemma recorded_bound (ds : list row) : forall o j,
  Forall (fun k => j <= k < j + length ds) (recorded o j ds).
Proof.
  induction ds as [|d ds IH]; intros o j; simpl; [constructor|].
  destruct (identity_rule_b o d).
  - apply Forall_cons. split; [lia|].
    eapply Forall_impl; [apply IH|]. simpl. intros; lia.
  - eapply Forall_impl; [apply IH|]. simpl. intros; lia.
Qed.

Lemma all_recorded_bound (t : list row) : forall i,
  Forall (fun k => i < k < i + length t) (all_recorded i t).
Proof.
  induction t as [|o t IH]; intros i; simpl; [constructor|].
  apply Forall_app. split.
  - eapply Forall_impl; [apply recorded_bound|]. simpl. intros; lia.
  - eapply Forall_impl; [apply IH|]. simpl. intros; lia.
Qed.

(** The whole step on a table of equal-width rows in which no row is a
    duplicate of two origins: the rows recorded are removed, the others
    stay in their order, each origin with the fields merged into it. *)
Lemma check_and_update_duplicate_distinct (w : nat) (t : table) :
  3 <= w -> Forall (fun r : row => length r = w) t ->
  NoDup (all_recorded 0 t) ->
  check_and_update_duplicate t
  = (Ok tt, keep_rows (all_recorded 0 t) (scanned t))
  /\ length (keep_rows (all_recorded 0 t) (scanned t))
     = length t - length (all_recorded 0 t).
Proof.
  intros Hw Ht Hnd. unfold check_and_update_duplicate.
  rewrite (bind_ok _ _ _ _ _ (duplicate_scan_refines w t Hw Ht)).
  rewrite <- (scanned_length t).
  apply removing_duplicates_distinct; [assumption|].
  rewrite scanned_length.
  eapply Forall_impl; [apply all_recorded_bound|]. simpl. intros; lia.
Qed.

(** Which indexes the pass of one origin records: the row [k] places
    after the origin's successor is recorded exactly when the test holds
    between it and the origin as updated by the rows before it. *)
Lemma recorded_spec (ds : list row) : forall (o : row) j x,
  x ∈ recorded o j ds
  <-> exists k (d : row),
        x = j + k /\ ds !! k = Some d
        /\ identity_rule_b (absorbed o (take k ds)) d = true.
Proof.
  induction ds as [|d ds IH]; intros o j x; simpl.
  - split; [intros H; now apply elem_of_nil in H|].
    intros (k & d & _ & H & _). discriminate.
  - destruct (identity_rule_b o d) eqn:Hb.
    + rewrite elem_of_cons, IH. split.
      * intros [->|(k & d' & -> & Hk & Hr)].
        -- exists 0, d. repeat split; [lia | assumption].
        -- exists (S k), d'. simpl. rewrite Hb. repeat split; [lia|assumption..].
      * intros ([|k] & d' & -> & Hk & Hr); [left; lia|].
        right. exists k, d'. simpl in Hk, Hr. rewrite Hb in Hr.
        repeat split; [lia | assumption..].
    + rewrite IH. split.
      * intros (k & d' & -> & Hk & Hr).
        exists (S k), d'. simpl. rewrite Hb. repeat split; [lia|assumption..].
      * intros ([|k] & d' & -> & Hk & Hr).
        -- simpl in Hk, Hr. injection Hk as <-. congruence.
        -- exists k, d'. simpl in Hk, Hr. rewrite Hb in Hr.
           repeat split; [lia | assumption..].
Qed.

(** ** Names *)

(** The tokens of [split] are the non-whitespace characters of the string,
    in order, cut into non-empty pieces free of whitespace. *)
Lemma split_from_tokens s : forall tok,
  no_space tok ->
  Forall (fun t => t <> [] /\ no_space t) (split_from tok s)
  /\ concat (split_from tok s)
     = tok ++ List.filter (fun c => negb (is_space c)) s.
Proof.
  induction s as [|c s IH]; intros tok Htok; simpl.
  - destruct tok as [|x tok]; simpl.
    + split; [constructor | reflexivity].
    + split; [|now rewrite !app_nil_r].
      apply Forall_cons. split; [|constructor].
      split; [discriminate | assumption].
  - destruct (is_space c) eqn:Hc; simpl.
    + destruct (IH [] ltac:(constructor)) as [IH1 IH2].
      destruct tok as [|x tok]; simpl.
      * split; assumption.
      * split; [|rewrite IH2; reflexivity].
        apply Forall_cons. split; [|assumption].
        split; [discriminate | assumption].
    + destruct (IH (tok ++ [c])) as [IH1 IH2].
      { apply Forall_app. split; [assumption|].
        apply Forall_cons. split; [assumption | constructor]. }
      split; [assumption|]. rewrite IH2, <- app_assoc. reflexivity.
Qed.

Lemma split_tokens s :
  Forall (fun t => t <> [] /\ no_space t) (split s)
  /\ concat (split s) = List.filter (fun c => negb (is_space c)) s.
Proof. apply (split_from_tokens s []). constructor. Qed.

Lemma format_name_of_tokens (old_full_name : list pystr) :
  format_name old_full_name
  = match split (join (py " ") old_full_name) with
    | [] => [[]; []; []]
    | [a] => [a; []; []]
    | [a; b] => [a; b; []]
    | a :: b :: c :: _ => [a; b; c]
    end.
Proof.
  unfold format_name.
  destruct (split (join (py " ") old_full_name)) as [|a [|b [|c rest]]];
    reflexivity.
Qed.

(** C9: [format_name] returns exactly three strings, the first three
    whitespace tokens of the space-joined input in order, with the empty
    string where there is no such token; with no token at all the three
    are empty; tokens after the third do not matter; and the example of
    the specification. *)
Theorem format_name_first_three_tokens (old_full_name : list pystr) :
  format_name old_full_name = first_three_tokens old_full_name
  /\ length (format_name old_full_name) = 3
  /\ (split (join (py " ") old_full_name) = [] ->
      format_name old_full_name = [[]; []; []])
  /\ (forall other,
         take 3 (split (join (py " ") other))
         = take 3 (split (join (py " ") old_full_name)) ->
         format_name other = format_name old_full_name)
  /\ format_name [py "Ivanov"; []; py "Petrovich"]
     = [py "Ivanov"; py "Petrovich"; []].
Proof.
  split; [|split; [|split; [|split]]].
  - rewrite format_name_of_tokens. unfold first_three_tokens.
    destruct (split (join (py " ") old_full_name)) as [|a [|b [|c rest]]];
      reflexivity.
  - rewrite format_name_of_tokens.
    destruct (split (join (py " ") old_full_name)) as [|a [|b [|c rest]]];
      reflexivity.
  - intros H. rewrite format_name_of_tokens, H. reflexivity.
  - intros other H. rewrite !format_name_of_tokens.
    destruct (split (join (py " ") old_full_name)) as [|a [|b [|c rest]]];
      destruct (split (join (py " ") other)) as [|a' [|b' [|c' rest']]];
      simpl in H; try discriminate; try reflexivity; congruence.
  - vm_compute. reflexivity.
Qed.

(** ** Phone numbers *)

Section PhoneFacts.

Variable unicode_decimal : N -> bool.

Lemma one_char_sound {R} p s g (k : pystr -> groups -> option R) x :
  one_char p s g k = Some x ->
  exists pre s' g', s = pre ++ s' /\ 1 <= length pre /\ k s' g' = Some x.
Proof.
  unfold one_char. destruct s as [|c s']; [discriminate|].
  destruct (p c); [|discriminate]. intros H.
  exists [c], s', g. repeat split; [simpl; lia | assumption].
Qed.

Lemma repeat_loop_sound {R}
    (body : pystr -> groups -> (pystr -> groups -> option R) -> option R)
    lo hi (k : pystr -> groups -> option R) n :
  (forall s g k' x, body s g k' = Some x ->
     exists pre s' g', s = pre ++ s' /\ n <= length pre /\ k' s' g' = Some x) ->
  forall fuel count s g x,
    lo <= count + fuel ->
    repeat_loop body lo hi k fuel count s g = Some x ->
    exists pre s' g',
      s = pre ++ s' /\ (lo - count) * n <= length pre /\ k s' g' = Some x.
Proof.
  intros Hbody. induction fuel as [|fuel IH]; intros count s g x Hfuel H.
  - simpl in H. exists [], s, g.
    replace (lo - count) with 0 by lia. repeat split; [simpl; lia | assumption].
  - simpl in H. destruct (Nat.ltb_spec count lo) as [Hlt|Hge].
    + apply Hbody in H as (pre1 & s1 & g1 & -> & Hn & H).
      apply IH in H as (pre2 & s' & g' & -> & Hm & H); [|lia].
      exists (pre1 ++ pre2), s', g'. rewrite length_app.
      repeat split; [now rewrite app_assoc | nia | assumption].
    + assert (exists pre s' g', s = pre ++ s' /\ k s' g' = Some x)
        as (pre & s' & g' & -> & Hk).
      { destruct (below hi count).
        - match type of H with
          | match ?b with _ => _ end = _ => destruct b as [y|] eqn:Hb
          end.
          + injection H as ->.
            apply Hbody in Hb as (pre1 & s1 & g1 & -> & Hn & Hb).
            destruct (length s1 <? length (pre1 ++ s1)); [|discriminate].
            apply IH in Hb as (pre2 & s' & g' & -> & _ & Hb); [|lia].
            exists (pre1 ++ pre2), s', g'.
            split; [now rewrite app_assoc | assumption].
          + exists [], s, g. split; [reflexivity | assumption].
        - exists [], s, g. split; [reflexivity | assumption]. }
      exists pre, s', g'. replace (lo - count) with 0 by lia.
      repeat split; [simpl; lia | assumption].
Qed.

(** What succeeds went through the continuation, on a suffix of the input
    that is at least [min_len r] characters shorter. *)
Lemma rmatch_sound {R} r : forall s g (k : pystr -> groups -> option R) x,
  rmatch unicode_decimal r s g k = Some x ->
  exists pre s' g',
    s = pre ++ s' /\ min_len r <= length pre /\ k s' g' = Some x.
Proof.
  induction r as [|c| |c|items|r1 IH1 r2 IH2|r1 IH1 r2 IH2|lo hi r1 IH1|n r1 IH1];
    intros s g k x H; simpl in H; simpl min_len.
  - exists [], s, g. repeat split; [simpl; lia | assumption].
  - now apply one_char_sound in H.
  - now apply one_char_sound in H.
  - now apply one_char_sound in H.
  - now apply one_char_sound in H.
  - apply IH1 in H as (pre1 & s1 & g1 & -> & Hn1 & H).
    apply IH2 in H as (pre2 & s' & g' & -> & Hn2 & H).
    exists (pre1 ++ pre2), s', g'. rewrite length_app.
    repeat split; [now rewrite app_assoc | lia | assumption].
  - destruct (rmatch unicode_decimal r1 s g k) as [y|] eqn:H1.
    + injection H as ->.
      apply IH1 in H1 as (pre & s' & g' & -> & Hn & H1).
      exists pre, s', g'. repeat split; [lia | assumption].
    + apply IH2 in H as (pre & s' & g' & -> & Hn & H).
      exists pre, s', g'. repeat split; [lia | assumption].
  - apply (repeat_loop_sound _ lo hi k (min_len r1) IH1) in H; [|lia].
    destruct H as (pre & s' & g' & -> & Hn & H).
    exists pre, s', g'. repeat split; [lia | assumption].
  - apply IH1 in H as (pre & s' & g' & -> & Hn & H).
    eexists pre, s', _. repeat split; [assumption | exact H].
Qed.

Lemma match_at_sound r s g rest :
  match_at unicode_decimal r s = Some (g, rest) ->
  exists m, s = m ++ rest /\ min_len r <= length m.
Proof.
  unfold match_at. intros H.
  apply rmatch_sound in H as (pre & s' & g' & -> & Hn & H).
  injection H as _ ->. exists pre. split; [reflexivity | assumption].
Qed.

Lemma search_some r s : forall pre g rest,
  search unicode_decimal r s = Some (pre, g, rest) ->
  exists m,
    s = pre ++ m ++ rest /\ min_len r <= length m
    /\ match_at unicode_decimal r (m ++ rest) = Some (g, rest)
    /\ (forall p q, pre = p ++ q -> q <> [] ->
                    match_at unicode_decimal r (q ++ m ++ rest) = None).
Proof.
  induction s as [|c s IH]; intros pre g rest H; simpl in H.
  - destruct (match_at unicode_decimal r []) as [[g0 rest0]|] eqn:Hm;
      [|discriminate].
    injection H as <- <- <-.
    destruct (match_at_sound _ _ _ _ Hm) as (m & Hs & Hlen).
    exists m. rewrite <- Hs. repeat split; try assumption.
    intros p q Hpq Hq. destruct p, q; try discriminate. contradiction.
  - destruct (match_at unicode_decimal r (c :: s)) as [[g0 rest0]|] eqn:Hm.
    + injection H as <- <- <-.
      destruct (match_at_sound _ _ _ _ Hm) as (m & Hs & Hlen).
      exists m. rewrite <- Hs. repeat split; try assumption.
      intros p q Hpq Hq. destruct p, q; try discriminate. contradiction.
    + destruct (search unicode_decimal r s) as [[[pre0 g0] rest0]|] eqn:Hs;
        [|discriminate].
      injection H as <- <- <-.
      destruct (IH _ _ _ eq_refl) as (m & -> & Hlen & Hmatch & Hleft).
      exists m. repeat split; try assumption.
      intros p q Hpq Hq. destruct p as [|c' p].
      * simpl in Hpq. subst q. exact Hm.
      * injection Hpq as -> ->. exact (Hleft p q eq_refl Hq).
Qed.



End PhoneFacts.


(** C2: the template always writes the space that separates the number
    from the extension, so ["8 916 123 45 67"] becomes the canonical form
    followed by a space, and not the canonical form itself. *)
Theorem format_phone_leaves_a_trailing_space (unicode_decimal : N -> bool) :
  format_phone unicode_decimal (py "8 916 123 45 67")
  = py "+7(916)123-45-67" ++ py " "
  /\ format_phone unicode_decimal (py "8 916 123 45 67")
     <> py "+7(916)123-45-67".
Proof.
  assert (format_phone unicode_decimal (py "8 916 123 45 67")
          = py "+7(916)123-45-67" ++ py " ") as E
    by (vm_compute; reflexivity).
  split; [exact E|]. rewrite E. vm_compute. discriminate.
Qed.

(** C4: a second pass matches the canonical number again and writes one
    more space after it, so [format_phone] is not idempotent. *)
Theorem format_phone_twice_differs (unicode_decimal : N -> bool) :
  format_phone unicode_decimal (py "8 916 123 45 67")
  = py "+7(916)123-45-67 "
  /\ format_phone unicode_decimal
       (format_phone unicode_decimal (py "8 916 123 45 67"))
     = py "+7(916)123-45-67  "
  /\ format_phone unicode_decimal
       (format_phone unicode_decimal (py "8 916 123 45 67"))
     <> format_phone unicode_decimal (py "8 916 123 45 67").
Proof.
  assert (format_phone unicode_decimal (py "8 916 123 45 67")
          = py "+7(916)123-45-67 ") as E1
    by (vm_compute; reflexivity).
  assert (format_phone unicode_decimal (py "+7(916)123-45-67 ")
          = py "+7(916)123-45-67  ") as E2
    by (vm_compute; reflexivity).
  rewrite E1, E2. repeat split. vm_compute. discriminate.
Qed.



(** C6: the marker is matched with a wildcard in the place of the period.
    The canonical number with the extension ["доб.1234"] comes back
    unchanged, but the text ["добX1234"] is taken for an extension as
    well: group 7 captures ["добX"] and the output carries it. *)
Theorem format_phone_takes_any_character_for_the_period
    (unicode_decimal : N -> bool) :
  format_phone unicode_decimal (py "+7(916)123-45-67 " ++ dob ++ py ".1234")
  = py "+7(916)123-45-67 " ++ dob ++ py ".1234"
  /\ format_phone unicode_decimal (py "8 916 123 45 67 " ++ dob ++ py "X1234")
     = py "+7(916)123-45-67 " ++ dob ++ py "X1234"
  /\ (exists g,
         match_at unicode_decimal pattern_compiled
           (py "8 916 123 45 67 " ++ dob ++ py "X1234") = Some (g, [])
         /\ g 7 = Some (dob ++ py "X") /\ g 8 = Some (py "1234"))
  /\ format_phone unicode_decimal (py "8 916 123 45 67 " ++ dob ++ py "X1234")
     <> py "+7(916)123-45-67 ".
Proof.
  split; [vm_compute; reflexivity|].
  split; [vm_compute; reflexivity|].
  split.
  - vm_compute. eexists. split; [reflexivity|]. split; reflexivity.
  - vm_compute. discriminate.
Qed.

(** ** Normalizing the rows *)

Lemma format_name_three (old_full_name : list pystr) :
  exists a b c, format_name old_full_name = [a; b; c].
Proof.
  rewrite format_name_of_tokens.
  destruct (split (join (py " ") old_full_name)) as [|a [|b [|c rest]]];
    eauto.
Qed.

Lemma read_cell_on_row i c (t : table) :
  read_cell i c t = on_row i (row_read c) t.
Proof.
  unfold read_cell, on_row, row_read.
  destruct (t !! i) as [r|] eqn:Hi; [|reflexivity].
  destruct (r !! c); simpl; now rewrite list_insert_id.
Qed.

Lemma write_cell_on_row i c v (t : table) :
  write_cell i c v t = on_row i (row_write c v) t.
Proof.
  unfold write_cell, on_row, row_write.
  destruct (t !! i) as [r|] eqn:Hi; [|reflexivity].
  destruct (decide (c < length r)); simpl; [reflexivity|].
  now rewrite list_insert_id.
Qed.

Lemma on_row_bind {A B} i (m : M row A) (f : A -> M row B) (t : table) :
  on_row i (bind m f) t = bind (on_row i m) (fun a => on_row i (f a)) t.
Proof.
  unfold on_row, bind.
  destruct (t !! i) as [r|] eqn:Hi; [|reflexivity].
  assert (i < length t) by now apply lookup_lt_Some in Hi.
  destruct (m r) as [[a|e] r']; simpl; [|reflexivity].
  rewrite list_lookup_insert_eq by assumption.
  now rewrite list_insert_insert_eq.
Qed.

Lemma bind_ext {S A B} (m m' : M S A) (f f' : A -> M S B) s :
  m s = m' s -> (forall a s', f a s' = f' a s') -> bind m f s = bind m' f' s.
Proof.
  intros Hm Hf. unfold bind. rewrite Hm.
  destruct (m' s) as [[a|e] s']; [apply Hf | reflexivity].
Qed.

Lemma format_contact_on_row nd i (t : table) :
  format_contact nd i t = on_row i (format_contact_row nd) t.
Proof.
  unfold format_contact.
  destruct (t !! i) as [contact|] eqn:Hi;
    [|unfold on_row; now rewrite Hi].
  destruct (format_name_three (take 3 contact)) as (n0 & n1 & n2 & E).
  rewrite E.
  transitivity
    (on_row i
       (let* _ := row_write 0 n0 in
        let* _ := row_write 1 n1 in
        let* _ := row_write 2 n2 in
        let* phone := row_read 5 in
        row_write 5 (format_phone nd phone)) t).
  - rewrite on_row_bind.
    apply bind_ext; [apply write_cell_on_row|]. intros _ t1.
    rewrite on_row_bind.
    apply bind_ext; [apply write_cell_on_row|]. intros _ t2.
    rewrite on_row_bind.
    apply bind_ext; [apply write_cell_on_row|]. intros _ t3.
    rewrite on_row_bind.
    apply bind_ext; [apply read_cell_on_row|]. intros phone t4.
    apply write_cell_on_row.
  - unfold on_row. rewrite Hi. unfold format_contact_row. now rewrite E.
Qed.

Lemma row_write_ok (r : row) c v :
  c < length r -> row_write c v r = (Ok tt, <[c := v]> r).
Proof.
  intros H. unfold row_write. destruct (decide (c < length r)); [reflexivity|lia].
Qed.

Lemma row_write_raise (r : row) c v :
  length r <= c -> row_write c v r = (Raise IndexError, r).
Proof.
  intros H. unfold row_write. destruct (decide (c < length r)); [lia|reflexivity].
Qed.

Lemma format_contact_row_wide nd (contact : row) :
  6 <= length contact ->
  format_contact_row nd contact = (Ok tt, format_row nd contact).
Proof.
  intros Hlen.
  destruct contact as [|c0 [|c1 [|c2 [|c3 [|c4 [|c5 rest]]]]]];
    simpl in Hlen; try lia.
  unfold format_contact_row, format_row. simpl take. simpl drop.
  destruct (format_name_three [c0; c1; c2]) as (n0 & n1 & n2 & E).
  rewrite E.
  rewrite (bind_ok _ _ _ _ _
             (row_write_ok (c0 :: c1 :: c2 :: c3 :: c4 :: c5 :: rest) 0 n0
                ltac:(simpl; lia))).
  rewrite (bind_ok _ _ _ _ _
             (row_write_ok (n0 :: c1 :: c2 :: c3 :: c4 :: c5 :: rest) 1 n1
                ltac:(simpl; lia))).
  rewrite (bind_ok _ _ _ _ _
             (row_write_ok (n0 :: n1 :: c2 :: c3 :: c4 :: c5 :: rest) 2 n2
                ltac:(simpl; lia))).
  unfold bind, row_read. simpl.
  apply (row_write_ok (n0 :: n1 :: n2 :: c3 :: c4 :: c5 :: rest) 5).
  simpl; lia.
Qed.

Lemma format_contact_row_short nd (contact : row) :
  length contact < 6 ->
  fst (format_contact_row nd contact) = Raise IndexError
  /\ length (snd (format_contact_row nd contact)) = length contact.
Proof.
  intros Hlen. unfold format_contact_row.
  destruct (format_name_three (take 3 contact)) as (n0 & n1 & n2 & E).
  rewrite E.
  destruct contact as [|c0 [|c1 [|c2 [|c3 [|c4 [|c5 rest]]]]]];
    simpl in Hlen; try lia; split; reflexivity.
Qed.

Lemma format_row_length nd (contact : row) :
  6 <= length contact -> length (format_row nd contact) = length contact.
Proof.
  intros Hlen.
  destruct contact as [|c0 [|c1 [|c2 [|c3 [|c4 [|c5 rest]]]]]];
    simpl in Hlen; try lia.
  unfold format_row. simpl take. simpl drop.
  destruct (format_name_three [c0; c1; c2]) as (n0 & n1 & n2 & E).
  rewrite E. reflexivity.
Qed.

(** The loop of [format_contact_list] over the wide rows [todo], which
    start at index [i]. *)
Lemma format_rows_from nd (todo after : list row) : forall (done : list row) i,
  length done = i -> Forall (fun r : row => 6 <= length r) todo ->
  for_each (seq i (length todo)) (format_contact nd) (done ++ todo ++ after)
  = (Ok tt, done ++ map (format_row nd) todo ++ after).
Proof.
  induction todo as [|contact todo IH]; intros done i Hdone Hwide;
    cbn [length seq for_each map app]; [reflexivity|].
  apply Forall_cons in Hwide as [Hc Hwide].
  assert (format_contact nd i (done ++ contact :: todo ++ after)
          = (Ok tt, done ++ format_row nd contact :: todo ++ after)) as Hstep.
  { rewrite format_contact_on_row. unfold on_row.
    rewrite list_lookup_middle by (symmetry; assumption).
    rewrite (format_contact_row_wide nd contact Hc). simpl fst. simpl snd.
    rewrite insert_app_r_alt by lia.
    replace (i - length done) with 0 by lia. reflexivity. }
  rewrite (bind_ok _ _ _ _ _ Hstep).
  rewrite (cons_middle (format_row nd contact) done), app_assoc.
  rewrite (IH (done ++ [format_row nd contact]) (S i)); try assumption.
  - now rewrite <- !app_assoc.
  - rewrite length_app. simpl. lia.
Qed.

Lemma format_contact_list_wide nd (t : table) :
  Forall (fun r : row => 6 <= length r) t ->
  format_contact_list nd t = (Ok tt, map (format_row nd) t).
Proof.
  intros Hwide. unfold format_contact_list, bind at 1, table_len, range.
  rewrite Nat.sub_0_r.
  pose proof (format_rows_from nd t [] [] 0 eq_refl Hwide) as H.
  now rewrite !app_nil_r in H.
Qed.

Lemma for_each_app {S A} (l1 l2 : list A) (body : A -> M S unit) : forall s,
  for_each (l1 ++ l2) body s
  = bind (for_each l1 body) (fun _ => for_each l2 body) s.
Proof.
  induction l1 as [|x l1 IH]; intros s; simpl; [reflexivity|].
  unfold bind. destruct (body x s) as [[[]|e] s']; [apply IH | reflexivity].
Qed.

Lemma format_row_fields nd (r : row) :
  6 <= length r ->
  length (format_row nd r) = length r
  /\ take 3 (format_row nd r) = format_name (take 3 r)
  /\ format_row nd r !! 3 = r !! 3
  /\ format_row nd r !! 4 = r !! 4
  /\ format_row nd r !! 5 = format_phone nd <$> r !! 5
  /\ drop 6 (format_row nd r) = drop 6 r.
Proof.
  intros Hlen. split; [now apply format_row_length|].
  destruct r as [|c0 [|c1 [|c2 [|c3 [|c4 [|c5 rest]]]]]];
    simpl in Hlen; try lia.
  unfold format_row. simpl take. simpl drop.
  destruct (format_name_three [c0; c1; c2]) as (n0 & n1 & n2 & E).
  rewrite E. repeat split; reflexivity.
Qed.

(** X1: on a table whose rows all have at least six fields,
    [format_contact_list] returns normally; the table keeps its rows in
    their order, and each row keeps its width, gets the three names of
    [format_name] in columns 0 to 2 and the formatted phone in column 5,
    and keeps every other column. *)
Theorem format_contact_list_formats_every_row
    (unicode_decimal : N -> bool) (t : table) :
  Forall (fun r : row => 6 <= length r) t ->
  exists t' : table,
    format_contact_list unicode_decimal t = (Ok tt, t')
    /\ length t' = length t
    /\ forall k (r : row), t !! k = Some r ->
         exists r' : row,
           t' !! k = Some r'
           /\ length r' = length r
           /\ take 3 r' = format_name (take 3 r)
           /\ r' !! 3 = r !! 3 /\ r' !! 4 = r !! 4
           /\ r' !! 5 = format_phone unicode_decimal <$> r !! 5
           /\ drop 6 r' = drop 6 r.
Proof.
  intros Hwide. exists (map (format_row unicode_decimal) t).
  split; [now apply format_contact_list_wide|].
  split; [apply length_map|].
  intros k r Hk. exists (format_row unicode_decimal r).
  split; [now rewrite list_lookup_fmap, Hk|].
  apply format_row_fields.
  rewrite Forall_forall in Hwide. apply Hwide.
  apply list_elem_of_lookup. eauto.
Qed.

(** X2: a row with fewer than six fields stops [format_contact_list] with
    [IndexError].  The rows before it are formatted already, the short row
    keeps its width, and the rows after it are untouched. *)
Theorem format_contact_list_short_row_raises
    (unicode_decimal : N -> bool) (good rest : list row) (bad : row) :
  Forall (fun r : row => 6 <= length r) good -> length bad < 6 ->
  exists bad' : row,
    format_contact_list unicode_decimal (good ++ bad :: rest)
    = (Raise IndexError,
       map (format_row unicode_decimal) good ++ bad' :: rest)
    /\ length bad' = length bad.
Proof.
  intros Hgood Hbad.
  exists (snd (format_contact_row unicode_decimal bad)).
  destruct (format_contact_row_short unicode_decimal bad Hbad) as [Hraise Hlen].
  split; [|assumption].
  unfold format_contact_list, bind at 1, table_len, range.
  rewrite Nat.sub_0_r, length_app. cbn [length].
  rewrite seq_app, for_each_app. cbn [Nat.add seq for_each].
  rewrite (bind_ok _ _ _ _ _
             (format_rows_from unicode_decimal good (bad :: rest) [] 0
                eq_refl Hgood)).
  cbn [app].
  assert (format_contact unicode_decimal (length good)
            (map (format_row unicode_decimal) good ++ bad :: rest)
          = (Raise IndexError,
             map (format_row unicode_decimal) good
             ++ snd (format_contact_row unicode_decimal bad) :: rest)) as Hstep.
  { rewrite format_contact_on_row. unfold on_row.
    rewrite list_lookup_middle by now rewrite length_map.
    rewrite Hraise.
    rewrite insert_app_r_alt by (rewrite length_map; lia).
    rewrite length_map, Nat.sub_diag. reflexivity. }
  now rewrite (bind_raise _ _ _ _ _ Hstep).
Qed.

(** ** Names, once more *)

Lemma split_from_app (a : pystr) : forall tok s,
  no_space a -> split_from tok (a ++ s) = split_from (tok ++ a) s.
Proof.
  induction a as [|c a IH]; intros tok s Ha; simpl.
  - now rewrite app_nil_r.
  - apply Forall_cons in Ha as [Hc Ha]. rewrite Hc.
    rewrite (IH (tok ++ [c]) s Ha), <- app_assoc. reflexivity.
Qed.

Lemma split_from_space (tok s : pystr) :
  tok <> [] -> split_from tok (py " " ++ s) = tok :: split_from [] s.
Proof. intros H. destruct tok; [contradiction | reflexivity]. Qed.

Lemma split_token_then (a s : pystr) :
  a <> [] -> no_space a ->
  split (a ++ py " " ++ s) = a :: split s.
Proof.
  intros Hne Ha. unfold split.
  rewrite (split_from_app a [] _ Ha). simpl app at 1.
  now apply split_from_space.
Qed.

Lemma split_token_last (a : pystr) :
  a <> [] -> no_space a -> split a = [a].
Proof.
  intros Hne Ha. unfold split.
  rewrite <- (app_nil_r a) at 1.
  rewrite (split_from_app a [] [] Ha). simpl. now destruct a.
Qed.

(** The names that [format_name] returns are whitespace-free tokens
    followed by empty strings. *)
Lemma format_name_cases (old_full_name : list pystr) :
  format_name old_full_name = [[]; []; []]
  \/ (exists a, a <> [] /\ no_space a
                /\ format_name old_full_name = [a; []; []])
  \/ (exists a b, a <> [] /\ no_space a /\ b <> [] /\ no_space b
                  /\ format_name old_full_name = [a; b; []])
  \/ (exists a b c, a <> [] /\ no_space a /\ b <> [] /\ no_space b
                    /\ c <> [] /\ no_space c
                    /\ format_name old_full_name = [a; b; c]).
Proof.
  rewrite format_name_of_tokens.
  destruct (split_tokens (join (py " ") old_full_name)) as [Htok _].
  destruct (split (join (py " ") old_full_name)) as [|a [|b [|c rest]]].
  - now left.
  - right; left. apply Forall_cons in Htok as [[Ha Ha'] _]. eauto.
  - right; right; left.
    apply Forall_cons in Htok as [[Ha Ha'] Htok].
    apply Forall_cons in Htok as [[Hb Hb'] _]. exists a, b. auto.
  - right; right; right.
    apply Forall_cons in Htok as [[Ha Ha'] Htok].
    apply Forall_cons in Htok as [[Hb Hb'] Htok].
    apply Forall_cons in Htok as [[Hc Hc'] _]. exists a, b, c. auto 10.
Qed.

(** X3: [format_name] is idempotent: the three names it returns come back
    unchanged when they are formatted again. *)
Theorem format_name_idempotent (old_full_name : list pystr) :
  format_name (format_name old_full_name) = format_name old_full_name.
Proof.
  destruct (format_name_cases old_full_name)
    as [E|[(a & Ha & Ha' & E)|[(a & b & Ha & Ha' & Hb & Hb' & E)
       |(a & b & c & Ha & Ha' & Hb & Hb' & Hc & Hc' & E)]]];
    rewrite E; rewrite format_name_of_tokens; cbn [join].
  - reflexivity.
  - rewrite (split_token_then a _ Ha Ha'). reflexivity.
  - rewrite (split_token_then a _ Ha Ha').
    rewrite (split_token_then b _ Hb Hb'). reflexivity.
  - rewrite (split_token_then a _ Ha Ha').
    rewrite (split_token_then b _ Hb Hb').
    rewrite (split_token_last c Hc Hc'). reflexivity.
Qed.

(** X4: no name returned by [format_name] contains whitespace, and the
    empty names come last: after an empty name every later name is empty
    (the tokens are packed to the left, whatever columns they came from). *)
Theorem format_name_packs_tokens_left (old_full_name : list pystr) :
  Forall no_space (format_name old_full_name)
  /\ forall i j, i <= j -> j < 3 ->
       format_name old_full_name !! i = Some [] ->
       format_name old_full_name !! j = Some [].
Proof.
  destruct (format_name_cases old_full_name)
    as [E|[(a & Ha & Ha' & E)|[(a & b & Ha & Ha' & Hb & Hb' & E)
       |(a & b & c & Ha & Ha' & Hb & Hb' & Hc & Hc' & E)]]];
    rewrite E; (split; [repeat (apply Forall_cons; split);
                        try assumption; constructor|]);
    intros i j Hij Hj Hi;
    destruct i as [|[|[|i]]]; destruct j as [|[|[|j]]];
    simpl in *; try lia; try reflexivity; congruence.
Qed.

(** ** Merging with any column range *)

Lemma for_each_merge_columns_within i j (d : row) cols :
  forall (o : row) (t : table),
    t !! i = Some o -> t !! j = Some d -> i <> j ->
    Forall (fun c => c < length o /\ c < length d) cols ->
    for_each cols (merge_column i j) t
    = (Ok tt, <[i := merge_cols cols o d]> t).
Proof.
  induction cols as [|c cols IH]; intros o t Hi Hj Hne Hcols; simpl.
  - unfold ret. now rewrite list_insert_id.
  - apply Forall_cons in Hcols as [[Hco Hcd] Hcols].
    destruct (lookup_lt_is_Some_2 d c Hcd) as [v Hv]. rewrite Hv.
    assert (merge_column i j c t
            = (Ok tt, <[i := if truthy v then <[c := v]> o else o]> t)) as Hstep.
    { unfold merge_column.
      rewrite (bind_ok _ _ _ _ _ (read_cell_ok t j c d v Hj Hv)).
      destruct (truthy v).
      - rewrite (bind_ok _ _ _ _ _ (read_cell_ok t j c d v Hj Hv)).
        now apply write_cell_ok.
      - unfold ret. now rewrite list_insert_id. }
    rewrite (bind_ok _ _ _ _ _ Hstep).
    set (o' := if truthy v then <[c := v]> o else o).
    assert (length o' = length o) as Hlen'.
    { unfold o'. destruct (truthy v); [apply length_insert | reflexivity]. }
    rewrite (IH o').
    + now rewrite list_insert_insert_eq.
    + apply list_lookup_insert_eq. now apply lookup_lt_Some in Hi.
    + rewrite list_lookup_insert_ne by assumption. assumption.
    + assumption.
    + now rewrite Hlen'.
Qed.

Lemma elem_of_column_range (s e : Z) (c : nat) :
  (0 <= s)%Z -> c ∈ column_range s e <-> (s <= Z.of_nat c < e)%Z.
Proof.
  intros Hs. unfold column_range. rewrite list_elem_of_In, in_seq. lia.
Qed.

Lemma column_range_nodup (s e : Z) : NoDup (column_range s e).
Proof. apply NoDup_seq. Qed.

Lemma merging_closed_form (t : table) i j (o d : row) sc ec :
  t !! i = Some o -> t !! j = Some d -> i <> j -> length o <= length d ->
  (clamp_start sc <= clamp_end ec (length o))%Z ->
  merging_contact_lines i j sc ec t
  = (Ok tt,
     <[i := merge_cols
              (column_range (clamp_start sc) (clamp_end ec (length o))) o d]> t).
Proof.
  intros Hi Hj Hne Hd Hle. unfold merging_contact_lines.
  rewrite (bind_ok _ _ _ _ _ (row_len_ok t i o Hi)).
  apply Z.ltb_ge in Hle. rewrite Hle.
  apply for_each_merge_columns_within; try assumption.
  eapply Forall_impl;
    [apply (column_range_bound _ _ (length o));
     [apply clamp_start_nonneg | apply clamp_end_le]|].
  simpl. intros; lia.
Qed.

(** X5: [merging_contact_lines] with any [start_column] and [end_column]
    whose clamped values are in order, on two different rows of which the
    duplicate is at least as wide as the origin: only the columns from the
    clamped start up to, not including, the clamped end of the origin row
    can change; each takes the duplicate's field when that is non-empty. *)
Theorem merging_touches_only_the_column_range
    (t : table) (i j : nat) (o d : row) (start_column end_column : option Z) :
  t !! i = Some o -> t !! j = Some d -> i <> j -> length o <= length d ->
  (clamp_start start_column <= clamp_end end_column (length o))%Z ->
  exists o' : row,
    merging_contact_lines i j start_column end_column t
    = (Ok tt, <[i := o']> t)
    /\ length o' = length o
    /\ (forall c x v,
           (clamp_start start_column <= Z.of_nat c
            < clamp_end end_column (length o))%Z ->
           o !! c = Some x -> d !! c = Some v ->
           o' !! c = Some (if truthy v then v else x))
    /\ (forall c,
           (Z.of_nat c < clamp_start start_column
            \/ clamp_end end_column (length o) <= Z.of_nat c)%Z ->
           o' !! c = o !! c).
Proof.
  intros Hi Hj Hne Hd Hle.
  pose proof (clamp_start_nonneg start_column) as Hs.
  pose proof (clamp_end_le end_column (length o)) as He.
  exists (merge_cols
            (column_range (clamp_start start_column)
               (clamp_end end_column (length o))) o d).
  split; [apply merging_closed_form; assumption|].
  split; [apply merge_cols_length|]. split.
  - intros c x v Hc Hx Hv. apply merge_cols_lookup_in; try assumption.
    + apply column_range_nodup.
    + now apply elem_of_column_range.
    + eapply Forall_impl; [apply (column_range_bound _ _ (length o)); lia|].
      simpl. intros; lia.
  - intros c Hc. apply merge_cols_lookup_notin.
    rewrite elem_of_column_range by assumption. lia.
Qed.

Lemma for_each_merge_self i (o : row) (t : table) cols :
  t !! i = Some o -> Forall (fun c => c < length o) cols ->
  for_each cols (merge_column i i) t = (Ok tt, t).
Proof.
  intros Hi. induction cols as [|c cols IH]; intros Hcols; simpl;
    [reflexivity|].
  apply Forall_cons in Hcols as [Hc Hcols].
  destruct (lookup_lt_is_Some_2 o c Hc) as [v Hv].
  assert (merge_column i i c t = (Ok tt, t)) as Hstep.
  { unfold merge_column.
    rewrite (bind_ok _ _ _ _ _ (read_cell_ok t i c o v Hi Hv)).
    destruct (truthy v); [|reflexivity].
    rewrite (bind_ok _ _ _ _ _ (read_cell_ok t i c o v Hi Hv)).
    rewrite (write_cell_ok t i c o v Hi Hc).
    now rewrite (list_insert_id o c v Hv), (list_insert_id t i o Hi). }
  rewrite (bind_ok _ _ _ _ _ Hstep). now apply IH.
Qed.

(** X6: merging a row into itself changes nothing, whatever the column
    range: the call returns normally when the clamped start does not
    exceed the clamped end, and raises the [IndexError] of the guard when
    it does; the table is the same afterwards in both cases. *)
Theorem merging_a_row_into_itself
    (t : table) (i : nat) (o : row) (start_column end_column : option Z) :
  t !! i = Some o ->
  ((clamp_start start_column <= clamp_end end_column (length o))%Z ->
   merging_contact_lines i i start_column end_column t = (Ok tt, t))
  /\ ((clamp_end end_column (length o) < clamp_start start_column)%Z ->
      merging_contact_lines i i start_column end_column t
      = (Raise IndexError, t)).
Proof.
  intros Hi. split; intros H; unfold merging_contact_lines;
    rewrite (bind_ok _ _ _ _ _ (row_len_ok t i o Hi)).
  - apply Z.ltb_ge in H. rewrite H.
    apply (for_each_merge_self i o); [assumption|].
    apply column_range_bound; [apply clamp_start_nonneg | apply clamp_end_le].
  - apply Z.ltb_lt in H. now rewrite H.
Qed.

Lemma read_cell_no_row (t : table) i c :
  length t <= i -> read_cell i c t = (Raise IndexError, t).
Proof.
  intros H. unfold read_cell. now rewrite (lookup_ge_None_2 t i H).
Qed.

Lemma read_cell_no_column (t : table) i c (r : row) :
  t !! i = Some r -> length r <= c -> read_cell i c t = (Raise IndexError, t).
Proof.
  intros Hi H. unfold read_cell. now rewrite Hi, (lookup_ge_None_2 r c H).
Qed.

Lemma merge_column_step (t : table) i j c (o d : row) v :
  t !! i = Some o -> t !! j = Some d -> c < length o -> d !! c = Some v ->
  merge_column i j c t
  = (Ok tt, <[i := if truthy v then <[c := v]> o else o]> t).
Proof.
  intros Hi Hj Hc Hv. unfold merge_column.
  rewrite (bind_ok _ _ _ _ _ (read_cell_ok t j c d v Hj Hv)).
  destruct (truthy v).
  - rewrite (bind_ok _ _ _ _ _ (read_cell_ok t j c d v Hj Hv)).
    now apply write_cell_ok.
  - unfold ret. now rewrite list_insert_id.
Qed.

(** The loop of [merging_contact_lines] raises [IndexError] when it comes
    to a column that the duplicate row lacks. *)
Lemma for_each_merge_columns_narrow i j (d : row) cols : forall (t : table),
  t !! j = Some d -> i <> j ->
  (exists c, c ∈ cols /\ length d <= c) ->
  (exists o : row, t !! i = Some o /\ Forall (fun c => c < length o) cols) ->
  exists t', for_each cols (merge_column i j) t = (Raise IndexError, t').
Proof.
  induction cols as [|c cols IH];
    intros t Hj Hne (b & Hb & Hbd) (o & Hi & Hcols).
  - now apply elem_of_nil in Hb.
  - apply Forall_cons in Hcols as [Hc Hcols]. cbn [for_each].
    destruct (Nat.lt_ge_cases c (length d)) as [Hcd|Hcd].
    + destruct (lookup_lt_is_Some_2 d c Hcd) as [v Hv].
      rewrite (bind_ok _ _ _ _ _ (merge_column_step t i j c o d v Hi Hj Hc Hv)).
      apply IH.
      * now rewrite list_lookup_insert_ne.
      * assumption.
      * exists b. split; [|assumption].
        apply elem_of_cons in Hb as [->|Hb]; [lia | assumption].
      * exists (if truthy v then <[c := v]> o else o). split.
        -- apply list_lookup_insert_eq. now apply lookup_lt_Some in Hi.
        -- destruct (truthy v); [|assumption].
           eapply Forall_impl; [exact Hcols|]. simpl. intros x Hx.
           now rewrite length_insert.
    + exists t. unfold merge_column at 1.
      now rewrite (bind_raise _ _ _ _ _
                     (bind_raise _ _ _ _ _
                        (read_cell_no_column t j c d Hj Hcd))).
Qed.

(** The three ways a call of [merging_contact_lines] on two rows of the
    table can end. *)
Lemma merging_outcomes (t : table) i j (o d : row) sc ec :
  t !! i = Some o -> t !! j = Some d ->
  ((clamp_end ec (length o) < clamp_start sc)%Z ->
   merging_contact_lines i j sc ec t = (Raise IndexError, t))
  /\ ((clamp_start sc < clamp_end ec (length o))%Z ->
      (Z.of_nat (length d) < clamp_end ec (length o))%Z ->
      exists t', merging_contact_lines i j sc ec t = (Raise IndexError, t'))
  /\ ((clamp_start sc <= clamp_end ec (length o))%Z ->
      (clamp_start sc = clamp_end ec (length o)
       \/ clamp_end ec (length o) <= Z.of_nat (length d))%Z ->
      exists t', merging_contact_lines i j sc ec t = (Ok tt, t')).
Proof.
  intros Hi Hj.
  pose proof (clamp_start_nonneg sc) as Hs.
  pose proof (clamp_end_le ec (length o)) as He.
  split; [|split].
  - intros Hlt. unfold merging_contact_lines.
    rewrite (bind_ok _ _ _ _ _ (row_len_ok t i o Hi)).
    apply Z.ltb_lt in Hlt. now rewrite Hlt.
  - intros Hlt Hd. unfold merging_contact_lines.
    rewrite (bind_ok _ _ _ _ _ (row_len_ok t i o Hi)).
    replace (clamp_end ec (length o) <? clamp_start sc)%Z
      with false by (symmetry; apply Z.ltb_ge; lia).
    assert (i <> j) as Hne.
    { intros ->. rewrite Hi in Hj. injection Hj as ->. lia. }
    apply (for_each_merge_columns_narrow i j d); try assumption.
    + exists (Nat.max (Z.to_nat (clamp_start sc)) (length d)). split; [|lia].
      apply elem_of_column_range; lia.
    + exists o. split; [assumption|]. now apply column_range_bound.
  - intros Hle Hd. unfold merging_contact_lines.
    rewrite (bind_ok _ _ _ _ _ (row_len_ok t i o Hi)).
    replace (clamp_end ec (length o) <? clamp_start sc)%Z
      with false by (symmetry; apply Z.ltb_ge; lia).
    destruct (decide (i = j)) as [<-|Hne].
    + exists t. apply (for_each_merge_self i o); [assumption|].
      now apply column_range_bound.
    + eexists.
      apply (for_each_merge_columns_within i j d _ o t Hi Hj Hne).
      apply Forall_forall. intros c Hc.
      apply elem_of_column_range in Hc; lia.
Qed.

(** C10, as amended: the guard of [merging_contact_lines] and the loop
    after it.  [start_column] is clamped to 0 when it is [None] or
    negative, [end_column] to the width of the origin row when it is
    [None] or larger than that width.  On any two rows of the table (the
    same row allowed) the call raises [IndexError] exactly when the
    clamped start exceeds the clamped end, the table being untouched
    then, or when the column range is not empty and the duplicate row is
    narrower than the clamped end; otherwise it returns normally.  When
    the duplicate row is at least as wide as the origin row, it raises
    exactly when the clamped start exceeds the clamped end. *)
Theorem merging_raises_iff_guard_or_narrow_duplicate
    (t : table) (i j : nat) (o d : row) (start_column end_column : option Z) :
  t !! i = Some o -> t !! j = Some d ->
  (clamp_start None = 0%Z
   /\ (forall s, (s < 0)%Z -> clamp_start (Some s) = 0%Z)
   /\ (forall s, (0 <= s)%Z -> clamp_start (Some s) = s))
  /\ (clamp_end None (length o) = Z.of_nat (length o)
      /\ (forall e, (Z.of_nat (length o) < e)%Z ->
          clamp_end (Some e) (length o) = Z.of_nat (length o))
      /\ (forall e, (e <= Z.of_nat (length o))%Z ->
          clamp_end (Some e) (length o) = e))
  /\ ((clamp_end end_column (length o) < clamp_start start_column)%Z ->
      merging_contact_lines i j start_column end_column t
      = (Raise IndexError, t))
  /\ ((exists t', merging_contact_lines i j start_column end_column t
                  = (Raise IndexError, t'))
      <-> (clamp_end end_column (length o) < clamp_start start_column
           \/ (clamp_start start_column < clamp_end end_column (length o)
               /\ Z.of_nat (length d) < clamp_end end_column (length o)))%Z)
  /\ ((exists t', merging_contact_lines i j start_column end_column t
                  = (Ok tt, t'))
      <-> (clamp_start start_column <= clamp_end end_column (length o)
           /\ (clamp_start start_column = clamp_end end_column (length o)
               \/ clamp_end end_column (length o) <= Z.of_nat (length d)))%Z)
  /\ (length o <= length d ->
      ((exists t', merging_contact_lines i j start_column end_column t
                   = (Raise IndexError, t'))
       <-> (clamp_end end_column (length o) < clamp_start start_column)%Z)).
Proof.
  intros Hi Hj.
  destruct (merging_outcomes t i j o d start_column end_column Hi Hj)
    as (Hguard & Hnarrow & Hok).
  pose proof (clamp_end_le end_column (length o)) as He.
  assert ((exists t', merging_contact_lines i j start_column end_column t
                      = (Raise IndexError, t'))
          <-> (clamp_end end_column (length o) < clamp_start start_column
               \/ (clamp_start start_column < clamp_end end_column (length o)
                   /\ Z.of_nat (length d)
                      < clamp_end end_column (length o)))%Z) as Hraise.
  { split.
    - intros [t' E].
      destruct (Z.lt_ge_cases (clamp_end end_column (length o))
                  (clamp_start start_column)) as [Hlt|Hge]; [now left|].
      destruct (Z.le_gt_cases (clamp_end end_column (length o))
                  (Z.of_nat (length d))) as [Hd|Hd].
      + destruct (Hok Hge (or_intror Hd)) as [t'' E']. congruence.
      + destruct (Z.eq_dec (clamp_start start_column)
                    (clamp_end end_column (length o))) as [Heq|Hneq].
        * destruct (Hok Hge (or_introl Heq)) as [t'' E']. congruence.
        * right. lia.
    - intros [Hlt|[Hlt Hd]]; [exists t; now apply Hguard | now apply Hnarrow]. }
  split; [|split; [|split; [exact Hguard|split; [exact Hraise|split]]]].
  - unfold clamp_start. repeat split; intros s Hs;
      destruct (Z.ltb_spec s 0); lia.
  - unfold clamp_end. repeat split; intros e Hle;
      destruct (Z.ltb_spec (Z.of_nat (length o)) e); lia.
  - split.
    + intros [t' E].
      destruct (Z.lt_ge_cases (clamp_end end_column (length o))
                  (clamp_start start_column)) as [Hlt|Hge].
      { rewrite (Hguard Hlt) in E. discriminate. }
      split; [assumption|].
      destruct (Z.le_gt_cases (clamp_end end_column (length o))
                  (Z.of_nat (length d))) as [Hd|Hd]; [now right|].
      destruct (Z.eq_dec (clamp_start start_column)
                  (clamp_end end_column (length o))) as [Heq|Hneq];
        [now left|].
      destruct (Hnarrow ltac:(lia) Hd) as [t'' E']. congruence.
    + intros [Hle Hd]. now apply Hok.
  - intros Hlen. rewrite Hraise. split; [|now left].
    intros [Hlt|[_ Hd]]; [assumption | lia].
Qed.

Lemma merging_guard_witness :
  merging_contact_lines 0 1 (Some 7%Z) (Some (-1)%Z) sample_table
  = (Raise IndexError, sample_table)
  /\ (exists t', merging_contact_lines 0 1 (Some (-3)%Z) (Some 40%Z)
                   sample_table = (Ok tt, t'))
  /\ (exists t', merging_contact_lines 0 1 (Some 2%Z) None narrow_table
                 = (Raise IndexError, t')).
Proof.
  split; [|split].
  - destruct (merging_raises_iff_guard_or_narrow_duplicate
                sample_table 0 1 sample_origin sample_duplicate
                (Some 7%Z) (Some (-1)%Z) eq_refl eq_refl)
      as (_ & _ & Hguard & _).
    apply Hguard. vm_compute. reflexivity.
  - destruct (merging_raises_iff_guard_or_narrow_duplicate
                sample_table 0 1 sample_origin sample_duplicate
                (Some (-3)%Z) (Some 40%Z) eq_refl eq_refl)
      as (_ & _ & _ & _ & Hok & _).
    apply Hok. split; [vm_compute; discriminate|].
    right. vm_compute. discriminate.
  - destruct (merging_raises_iff_guard_or_narrow_duplicate
                narrow_table 0 1 sample_origin
                [py "Ivanov"; py "Ivan"; py "Petrovich"]
                (Some 2%Z) None eq_refl eq_refl)
      as (_ & _ & _ & Hraise & _).
    apply Hraise. right. split; vm_compute; reflexivity.
Defined.

(** C10 as stated fails on a table with a duplicate row narrower than the
    origin row: with [start_column=2] and no [end_column] the clamped
    bounds are 2 and 6, in order, and the call raises [IndexError] all
    the same, having already written the patronymic into the origin
    row. *)
Lemma merging_raises_with_bounds_in_order :
  narrow_table !! 0 = Some sample_origin
  /\ narrow_table !! 1 = Some [py "Ivanov"; py "Ivan"; py "Petrovich"]
  /\ clamp_start (Some 2%Z) = 2%Z
  /\ clamp_end None (length sample_origin) = 6%Z
  /\ ~ (clamp_end None (length sample_origin) < clamp_start (Some 2%Z))%Z
  /\ merging_contact_lines 0 1 (Some 2%Z) None narrow_table
     = (Raise IndexError,
        [<[2 := py "Petrovich"]> sample_origin;
         [py "Ivanov"; py "Ivan"; py "Petrovich"]])
  /\ <[2 := py "Petrovich"]> sample_origin <> sample_origin.
Proof.
  repeat split; try reflexivity.
  - vm_compute. discriminate.
  - vm_compute. discriminate.
Qed.

(** X7: row indexes that are not indexes of the table.  A bad
    [row_origin] raises [IndexError] at once; a bad [row_duplicate] raises
    it when the first column is read, and is not noticed at all when the
    column range is empty.  The table is unchanged in each case. *)
Theorem merging_with_a_row_index_out_of_range
    (t : table) (i j : nat) (start_column end_column : option Z) :
  (length t <= i ->
   merging_contact_lines i j start_column end_column t
   = (Raise IndexError, t))
  /\ (forall o : row,
         t !! i = Some o -> length t <= j ->
         (clamp_start start_column < clamp_end end_column (length o))%Z ->
         merging_contact_lines i j start_column end_column t
         = (Raise IndexError, t))
  /\ (forall o : row,
         t !! i = Some o -> length t <= j ->
         clamp_start start_column = clamp_end end_column (length o) ->
         merging_contact_lines i j start_column end_column t = (Ok tt, t)).
Proof.
  split; [|split].
  - intros Hi. unfold merging_contact_lines, bind, row_len.
    now rewrite (lookup_ge_None_2 t i Hi).
  - intros o Hi Hj Hlt. unfold merging_contact_lines.
    rewrite (bind_ok _ _ _ _ _ (row_len_ok t i o Hi)).
    replace (clamp_end end_column (length o) <? clamp_start start_column)%Z
      with false by (symmetry; apply Z.ltb_ge; lia).
    unfold column_range.
    destruct (Z.to_nat (clamp_end end_column (length o)
                        - clamp_start start_column)) as [|n] eqn:E; [lia|].
    cbn [seq for_each]. unfold merge_column at 1.
    now rewrite (bind_raise _ _ _ _ _
                   (bind_raise _ _ _ _ _ (read_cell_no_row t j _ Hj))).
  - intros o Hi Hj Heq. unfold merging_contact_lines.
    rewrite (bind_ok _ _ _ _ _ (row_len_ok t i o Hi)).
    replace (clamp_end end_column (length o) <? clamp_start start_column)%Z
      with false by (symmetry; apply Z.ltb_ge; lia).
    unfold column_range. rewrite Heq, Z.sub_diag. reflexivity.
Qed.

(** X8: a duplicate row narrower than the column range.  When the
    clamped start is within the duplicate row and the clamped end is
    beyond it, [merging_contact_lines] raises [IndexError] at the first
    column the duplicate lacks, and the columns before it are merged
    already: the origin row is left partly updated. *)
Theorem merging_from_a_narrower_duplicate_is_partial
    (t : table) (i j : nat) (o d : row) (start_column end_column : option Z) :
  t !! i = Some o -> t !! j = Some d -> i <> j ->
  (clamp_start start_column <= Z.of_nat (length d))%Z ->
  (Z.of_nat (length d) < clamp_end end_column (length o))%Z ->
  exists o' : row,
    merging_contact_lines i j start_column end_column t
    = (Raise IndexError, <[i := o']> t)
    /\ length o' = length o
    /\ (forall c x v,
           (clamp_start start_column <= Z.of_nat c)%Z ->
           o !! c = Some x -> d !! c = Some v ->
           o' !! c = Some (if truthy v then v else x))
    /\ (forall c,
           (Z.of_nat c < clamp_start start_column)%Z \/ length d <= c ->
           o' !! c = o !! c).
Proof.
  intros Hi Hj Hne Hsd Hde.
  pose proof (clamp_start_nonneg start_column) as Hs.
  pose proof (clamp_end_le end_column (length o)) as He.
  set (s := Z.to_nat (clamp_start start_column)).
  set (cols := seq s (length d - s)).
  assert (Forall (fun c => c < length o /\ c < length d) cols) as Hcols.
  { apply Forall_forall. intros c Hc. unfold cols in Hc.
    apply list_elem_of_In, in_seq in Hc. lia. }
  exists (merge_cols cols o d).
  split; [|split; [apply merge_cols_length|split]].
  - unfold merging_contact_lines.
    rewrite (bind_ok _ _ _ _ _ (row_len_ok t i o Hi)).
    replace (clamp_end end_column (length o) <? clamp_start start_column)%Z
      with false by (symmetry; apply Z.ltb_ge; lia).
    unfold column_range. fold s.
    replace (Z.to_nat (clamp_end end_column (length o)
                       - clamp_start start_column))
      with ((length d - s)
            + S (Z.to_nat (clamp_end end_column (length o)) - S (length d)))
      by lia.
    rewrite seq_app, for_each_app. fold cols.
    rewrite (bind_ok _ _ _ _ _
               (for_each_merge_columns_within i j d cols o t Hi Hj Hne Hcols)).
    replace (s + (length d - s)) with (length d) by lia.
    cbn [seq for_each]. unfold merge_column at 1.
    assert ((<[i := merge_cols cols o d]> t) !! j = Some d) as Hj'
      by now rewrite list_lookup_insert_ne.
    now rewrite (bind_raise _ _ _ _ _
                   (bind_raise _ _ _ _ _
                      (read_cell_no_column _ j (length d) d Hj' (le_n _)))).
  - intros c x v Hc Hx Hv.
    assert (c < length d) by now apply lookup_lt_Some in Hv.
    apply merge_cols_lookup_in; try assumption.
    + apply NoDup_seq.
    + unfold cols. apply list_elem_of_In, in_seq. lia.
    + eapply Forall_impl; [exact Hcols|]. simpl. intros; lia.
  - intros c Hc. apply merge_cols_lookup_notin.
    unfold cols. rewrite list_elem_of_In, in_seq. lia.
Qed.

Lemma merge_cols_idempotent cols (o d : row) :
  NoDup cols -> Forall (fun c => c < length o /\ c < length d) cols ->
  merge_cols cols (merge_cols cols o d) d = merge_cols cols o d.
Proof.
  intros Hnd Hcols. apply list_eq. intros c.
  destruct (decide (c ∈ cols)) as [Hin|Hin].
  - rewrite Forall_forall in Hcols. destruct (Hcols c Hin) as [Hco Hcd].
    destruct (lookup_lt_is_Some_2 o c Hco) as [x Hx].
    destruct (lookup_lt_is_Some_2 d c Hcd) as [v Hv].
    assert (Forall (fun k => k < length d) cols) as Hd
      by (apply Forall_forall; intros k Hk; now apply Hcols).
    pose proof (merge_cols_lookup_in cols o d c x v Hnd Hin Hd Hx Hv) as H1.
    rewrite (merge_cols_lookup_in cols _ d c _ v Hnd Hin Hd H1 Hv), H1.
    now destruct (truthy v).
  - now rewrite !merge_cols_lookup_notin.
Qed.

(** X9: merging the same duplicate a second time changes nothing more. *)
Theorem merging_again_changes_nothing
    (t : table) (i j : nat) (o d : row) (start_column end_column : option Z) :
  t !! i = Some o -> t !! j = Some d -> i <> j -> length o <= length d ->
  (clamp_start start_column <= clamp_end end_column (length o))%Z ->
  exists t1 : table,
    merging_contact_lines i j start_column end_column t = (Ok tt, t1)
    /\ merging_contact_lines i j start_column end_column t1 = (Ok tt, t1).
Proof.
  intros Hi Hj Hne Hd Hle.
  set (cols := column_range (clamp_start start_column)
                 (clamp_end end_column (length o))).
  assert (Forall (fun c => c < length o /\ c < length d) cols) as Hcols.
  { eapply Forall_impl;
      [apply (column_range_bound _ _ (length o));
       [apply clamp_start_nonneg | apply clamp_end_le]|].
    simpl. intros; lia. }
  exists (<[i := merge_cols cols o d]> t).
  split; [now apply merging_closed_form|].
  assert (i < length t) by now apply lookup_lt_Some in Hi.
  rewrite (merging_closed_form _ i j (merge_cols cols o d) d).
  - rewrite merge_cols_length. fold cols.
    rewrite list_insert_insert_eq.
    rewrite merge_cols_idempotent; [reflexivity | apply column_range_nodup | assumption].
  - now apply list_lookup_insert_eq.
  - now rewrite list_lookup_insert_ne.
  - assumption.
  - now rewrite merge_cols_length.
  - now rewrite merge_cols_length.
Qed.

(** ** Removing rows, once more *)

Lemma keep_rows_from_sublist (idxs : list nat) (t : table) : forall k,
  sublist (keep_rows_from k idxs t) t.
Proof.
  induction t as [|r t IH]; intros k; simpl; [constructor|].
  destruct (bool_decide (k ∈ idxs));
    [apply sublist_cons | apply sublist_skip]; apply IH.
Qed.

(** X10: when the indexes are distinct indexes of the table,
    [removing_duplicates] returns normally and the table becomes its rows
    at the other indexes, in their order; it is shorter by the number of
    indexes. *)
Theorem removing_distinct_indexes_keeps_the_other_rows
    (idxs : list nat) (t : table) :
  NoDup idxs -> Forall (fun i => i < length t) idxs ->
  removing_duplicates idxs t = (Ok tt, keep_rows idxs t)
  /\ length (keep_rows idxs t) = length t - length idxs
  /\ sublist (keep_rows idxs t) t.
Proof.
  intros Hnd Hlen.
  destruct (removing_duplicates_distinct idxs t Hnd Hlen) as [Hrun Hkeep].
  repeat split; [assumption | assumption | apply keep_rows_from_sublist].
Qed.

Lemma descending_perm_eq (l1 : list nat) : forall l2,
  descending l1 -> descending l2 -> l1 ≡ₚ l2 -> l1 = l2.
Proof.
  induction l1 as [|x l1 IH]; intros l2 H1 H2 Hp.
  - symmetry. now apply Permutation_nil.
  - destruct l2 as [|y l2].
    { symmetry in Hp. now apply Permutation_nil_cons in Hp. }
    destruct H1 as [Hx H1], H2 as [Hy H2].
    assert (x <= y) as Hxy.
    { assert (x ∈ y :: l2) as Hin by (rewrite <- Hp; apply elem_of_cons; now left).
      apply elem_of_cons in Hin as [->|Hin]; [lia|].
      rewrite Forall_forall in Hy. now apply Hy. }
    assert (y <= x) as Hyx.
    { assert (y ∈ x :: l1) as Hin by (rewrite Hp; apply elem_of_cons; now left).
      apply elem_of_cons in Hin as [->|Hin]; [lia|].
      rewrite Forall_forall in Hx. now apply Hx. }
    assert (x = y) as -> by lia.
    f_equal. apply IH; try assumption.
    now apply Permutation_cons_inv in Hp.
Qed.

(** X11: the order in which the indexes were recorded does not matter to
    [removing_duplicates]: two lists with the same indexes, each as many
    times, give the same outcome and the same table. *)
Theorem removing_ignores_the_order_of_the_indexes
    (idxs idxs' : list nat) (t : table) :
  idxs ≡ₚ idxs' ->
  removing_duplicates idxs t = removing_duplicates idxs' t.
Proof.
  intros Hp. unfold removing_duplicates.
  rewrite (descending_perm_eq (sorted_reverse idxs) (sorted_reverse idxs'));
    [reflexivity | apply sorted_reverse_descending
     | apply sorted_reverse_descending|].
  now rewrite !sorted_reverse_perm.
Qed.

(** *** Any integers as indexes *)

Lemma del_row_int_of_nat (i : nat) (t : table) :
  del_row_int (Z.of_nat i) t = del_row i t.
Proof.
  unfold del_row_int.
  replace (Z.of_nat i <? 0)%Z with false by (symmetry; apply Z.ltb_ge; lia).
  now rewrite Nat2Z.id.
Qed.

Lemma insert_desc_int_of_nat (x : nat) (l : list nat) :
  insert_desc_int (Z.of_nat x) (Z.of_nat <$> l)
  = Z.of_nat <$> insert_desc x l.
Proof.
  induction l as [|y l IH]; simpl; [reflexivity|].
  destruct (Nat.ltb_spec y x) as [H|H].
  - now replace (Z.of_nat y <? Z.of_nat x)%Z with true
      by (symmetry; apply Z.ltb_lt; lia).
  - replace (Z.of_nat y <? Z.of_nat x)%Z with false
      by (symmetry; apply Z.ltb_ge; lia).
    simpl. f_equal. exact IH.
Qed.

Lemma sorted_reverse_int_of_nat (l : list nat) :
  sorted_reverse_int (Z.of_nat <$> l) = Z.of_nat <$> sorted_reverse l.
Proof.
  induction l as [|x l IH]; [reflexivity|].
  change (sorted_reverse_int (Z.of_nat <$> x :: l))
    with (insert_desc_int (Z.of_nat x) (sorted_reverse_int (Z.of_nat <$> l))).
  rewrite IH. apply insert_desc_int_of_nat.
Qed.

(** On indexes that are not negative, the two embeddings of
    [removing_duplicates] agree. *)
Lemma removing_duplicates_int_of_nat (idxs : list nat) (t : table) :
  removing_duplicates_int (Z.of_nat <$> idxs) t = removing_duplicates idxs t.
Proof.
  unfold removing_duplicates_int, removing_duplicates.
  rewrite sorted_reverse_int_of_nat.
  generalize (sorted_reverse idxs) as l. intros l. revert t.
  induction l as [|i l IH]; intros t; simpl; [reflexivity|].
  unfold bind. rewrite del_row_int_of_nat.
  destruct (del_row i t) as [[[]|e] t']; [apply IH | reflexivity].
Qed.

Lemma insert_desc_int_perm x l : insert_desc_int x l ≡ₚ x :: l.
Proof.
  induction l as [|y l IH]; simpl; [reflexivity|].
  destruct (y <? x)%Z; [reflexivity|].
  rewrite IH. apply Permutation_swap.
Qed.

Lemma sorted_reverse_int_perm l : sorted_reverse_int l ≡ₚ l.
Proof.
  induction l as [|x l IH]; simpl; [reflexivity|].
  rewrite insert_desc_int_perm. now rewrite IH.
Qed.

(** [sorted(indexes, reverse=True)] starts with the largest index. *)
Lemma insert_desc_int_head x l m rest :
  insert_desc_int x l = m :: rest ->
  (x <= m)%Z /\ match l with [] => True | y :: _ => (y <= m)%Z end.
Proof.
  destruct l as [|y l]; simpl.
  - intros [= <- <-]. split; [lia | exact I].
  - destruct (Z.ltb_spec y x); intros [= <- <-]; lia.
Qed.

Lemma sorted_reverse_int_head l : forall m rest,
  sorted_reverse_int l = m :: rest -> Forall (fun y => (y <= m)%Z) l.
Proof.
  induction l as [|x l IH]; intros m rest E; [constructor|].
  simpl in E. apply insert_desc_int_head in E as [Hx Hl].
  apply Forall_cons. split; [assumption|].
  destruct (sorted_reverse_int l) as [|y s] eqn:Es.
  - pose proof (sorted_reverse_int_perm l) as Hp. rewrite Es in Hp.
    apply Permutation_nil in Hp. rewrite Hp. constructor.
  - eapply Forall_impl; [apply (IH y s eq_refl)|]. simpl. intros; lia.
Qed.

Lemma del_row_int_above (t : table) (i : Z) :
  (Z.of_nat (length t) <= i)%Z -> del_row_int i t = (Raise IndexError, t).
Proof.
  intros H. unfold del_row_int.
  replace (i <? 0)%Z with false by (symmetry; apply Z.ltb_ge; lia).
  apply del_row_raise. lia.
Qed.

Lemma del_row_int_below (t : table) (i : Z) :
  (i < - Z.of_nat (length t))%Z -> del_row_int i t = (Raise IndexError, t).
Proof.
  intros H. unfold del_row_int.
  replace (i <? 0)%Z with true by (symmetry; apply Z.ltb_lt; lia).
  now replace (i + Z.of_nat (length t) <? 0)%Z with true
    by (symmetry; apply Z.ltb_lt; lia).
Qed.

Lemma del_row_int_cases (t : table) (i : Z) :
  del_row_int i t = (Raise IndexError, t)
  \/ exists k, del_row_int i t = (Ok tt, delete k t).
Proof.
  unfold del_row_int, del_row.
  destruct (i <? 0)%Z.
  - destruct (i + Z.of_nat (length t) <? 0)%Z; [now left | right; eauto].
  - destruct (decide (Z.to_nat i < length t)); [right; eauto | now left].
Qed.

(** Deleting at a list of indexes that holds one below [-len] ends with
    [IndexError], in whatever order the indexes come. *)
Lemma for_each_del_row_int_below (i : Z) (l : list Z) : forall t : table,
  i ∈ l -> (i < - Z.of_nat (length t))%Z ->
  exists t', for_each l del_row_int t = (Raise IndexError, t')
             /\ t' `sublist_of` t.
Proof.
  induction l as [|x l IH]; intros t Hin Hi; [now apply elem_of_nil in Hin|].
  cbn [for_each].
  destruct (del_row_int_cases t x) as [E|[k E]].
  - exists t. now rewrite (bind_raise _ _ _ _ _ E).
  - apply elem_of_cons in Hin as [->|Hin].
    { rewrite (del_row_int_below t x Hi) in E. discriminate. }
    rewrite (bind_ok _ _ _ _ _ E).
    pose proof (sublist_delete t k) as Hsub.
    destruct (IH (delete k t) Hin) as (t' & E' & Hsub').
    { apply sublist_length in Hsub. lia. }
    exists t'. split; [assumption|]. now transitivity (delete k t).
Qed.

(** X12: [removing_duplicates] on a list of integers that holds an index
    out of range.  An index at or beyond the length of the table makes
    the call raise [IndexError] before any row is deleted, the largest
    index being deleted first.  An index below minus the length makes it
    raise [IndexError] as well, but only after the deletions at the larger
    indexes: what is left is some of the rows of the table, in their
    order. *)
Theorem removing_an_index_out_of_range_raises
    (idxs : list Z) (t : table) (i : Z) :
  i ∈ idxs ->
  ((Z.of_nat (length t) <= i)%Z ->
   removing_duplicates_int idxs t = (Raise IndexError, t))
  /\ ((i < - Z.of_nat (length t))%Z ->
      exists t', removing_duplicates_int idxs t = (Raise IndexError, t')
                 /\ t' `sublist_of` t).
Proof.
  intros Hin. unfold removing_duplicates_int.
  pose proof (sorted_reverse_int_perm idxs) as Hp. split; intros Hi.
  - destruct (sorted_reverse_int idxs) as [|m rest] eqn:Es.
    { rewrite <- Hp in Hin. now apply elem_of_nil in Hin. }
    pose proof (sorted_reverse_int_head idxs m rest Es) as Hm.
    rewrite Forall_forall in Hm. specialize (Hm i Hin). cbn [for_each].
    now rewrite (bind_raise _ _ _ _ _ (del_row_int_above t m ltac:(lia))).
  - apply for_each_del_row_int_below with (i := i); [|assumption].
    now rewrite Hp.
Qed.

(** ** What the scan keeps *)

Lemma absorbed_names (ds : list row) : forall (o : row) c,
  c < 2 -> absorbed o ds !! c = o !! c.
Proof.
  induction ds as [|d ds IH]; intros o c Hc; simpl; [reflexivity|].
  rewrite IH by assumption.
  destruct (identity_rule_b o d); [now apply merge_row_names | reflexivity].
Qed.

Lemma merge_row_keeps_nonempty (o d : row) c x :
  length o <= length d -> o !! c = Some x -> x <> [] ->
  exists x', merge_row o d !! c = Some x' /\ x' <> [].
Proof.
  intros Hlen Hx Hne.
  destruct (Nat.lt_ge_cases c 2) as [Hc|Hc].
  - exists x. now rewrite merge_row_names.
  - assert (c < length o) as Hco by now apply lookup_lt_Some in Hx.
    destruct (lookup_lt_is_Some_2 d c ltac:(lia)) as [v Hv].
    rewrite (merge_row_field o d c x v Hc Hlen Hx Hv).
    destruct v as [|n v]; simpl; eauto.
Qed.

Lemma absorbed_keeps_nonempty (ds : list row) : forall (o : row) c x,
  Forall (fun d : row => length o <= length d) ds ->
  o !! c = Some x -> x <> [] ->
  exists x', absorbed o ds !! c = Some x' /\ x' <> [].
Proof.
  induction ds as [|d ds IH]; intros o c x Hds Hx Hne; simpl; [eauto|].
  apply Forall_cons in Hds as [Hd Hds].
  destruct (identity_rule_b o d); [|now apply (IH o c x)].
  destruct (merge_row_keeps_nonempty o d c x Hd Hx Hne) as (x1 & Hx1 & Hne1).
  apply (IH (merge_row o d) c x1); [|assumption..].
  now rewrite merge_row_length.
Qed.

Lemma scanned_lookup (t : list row) : forall k,
  scanned t !! k = (fun o => absorbed o (drop (S k) t)) <$> t !! k.
Proof.
  induction t as [|o t IH]; intros k; [reflexivity|].
  destruct k as [|k]; [reflexivity|]. simpl. apply IH.
Qed.

(** X13: what the scan keeps.  On a table whose rows all have the same
    width, at least 3, the two loops of [check_and_update_duplicate] return
    normally; the indexes they record are indexes of the table other than
    0; the table keeps its number of rows, and every row keeps its width,
    its last and first name, and a non-empty field wherever it had one. *)
Theorem duplicate_scan_keeps_names_and_filled_fields (w : nat) (t : table) :
  3 <= w -> Forall (fun r : row => length r = w) t ->
  exists (idxs : list nat) (t' : table),
    duplicate_scan t = (Ok idxs, t')
    /\ length t' = length t
    /\ Forall (fun k => 0 < k < length t) idxs
    /\ forall k (r : row), t !! k = Some r ->
         exists r' : row,
           t' !! k = Some r'
           /\ length r' = length r
           /\ r' !! 0 = r !! 0 /\ r' !! 1 = r !! 1
           /\ forall c x, r !! c = Some x -> x <> [] ->
                exists x', r' !! c = Some x' /\ x' <> [].
Proof.
  intros Hw Ht. exists (all_recorded 0 t), (scanned t).
  split; [now apply (duplicate_scan_refines w)|].
  split; [apply scanned_length|].
  split; [apply (all_recorded_bound t 0)|].
  intros k r Hk. exists (absorbed r (drop (S k) t)).
  split; [now rewrite scanned_lookup, Hk|].
  split; [apply absorbed_length|].
  split; [apply absorbed_names; lia|].
  split; [apply absorbed_names; lia|].
  intros c x Hx Hne. apply (absorbed_keeps_nonempty _ r c x); try assumption.
  apply Forall_forall. intros d Hd.
  assert (d ∈ t) as Hdt by (apply (subseteq_drop (S k) t); assumption).
  assert (r ∈ t) as Hrt by (apply list_elem_of_lookup; eauto).
  rewrite Forall_forall in Ht. rewrite (Ht r Hrt), (Ht d Hdt). lia.
Qed.

Lemma absorbed_none (ds : list row) (o : row) j :
  Forall (fun d => identity_rule_b o d = false) ds ->
  absorbed o ds = o /\ recorded o j ds = [].
Proof.
  revert j. induction ds as [|d ds IH]; intros j Hds; simpl; [auto|].
  apply Forall_cons in Hds as [Hd Hds]. rewrite Hd. now apply IH.
Qed.

Lemma scanned_none (t : list row) : forall i,
  (forall a b (o d : row), a < b -> t !! a = Some o -> t !! b = Some d ->
     identity_rule_b o d = false) ->
  scanned t = t /\ all_recorded i t = [].
Proof.
  induction t as [|o t IH]; intros i H; simpl; [auto|].
  destruct (absorbed_none t o (S i)) as [-> ->].
  { apply Forall_forall. intros d Hd.
    apply list_elem_of_lookup in Hd as [k Hk].
    apply (H 0 (S k)); [lia | reflexivity | exact Hk]. }
  destruct (IH (S i)) as [-> ->]; [|auto].
  intros a b o' d' Hab Ha Hb. apply (H (S a) (S b)); [lia | exact Ha | exact Hb].
Qed.

(** X14: a table of equal-width rows (at least 3 wide) in which no two
    rows satisfy the identity rule is left exactly as it is by
    [check_and_update_duplicate]. *)
Theorem table_without_duplicates_is_unchanged (w : nat) (t : table) :
  3 <= w -> Forall (fun r : row => length r = w) t ->
  (forall i j (o d : row), i < j -> t !! i = Some o -> t !! j = Some d ->
     ~ identity_rule o d) ->
  check_and_update_duplicate t = (Ok tt, t).
Proof.
  intros Hw Ht Hno. unfold check_and_update_duplicate.
  rewrite (bind_ok _ _ _ _ _ (duplicate_scan_refines w t Hw Ht)).
  destruct (scanned_none t 0) as [-> ->]; [|reflexivity].
  intros a b o d Hab Ha Hb.
  destruct (identity_rule_b o d) eqn:E; [|reflexivity].
  exfalso. apply (Hno a b o d Hab Ha Hb).
  rewrite Forall_forall in Ht.
  apply identity_rule_b_spec; [| |assumption].
  - rewrite (Ht o); [assumption | apply list_elem_of_lookup; eauto].
  - rewrite (Ht d); [assumption | apply list_elem_of_lookup; eauto].
Qed.

(** X15: two rows of the same width (at least 3) that satisfy the
    identity rule become one row: the first row, with every field from
    column 2 on replaced by the second row's field when that is
    non-empty. *)
Theorem two_rows_of_one_person_become_one (o d : row) :
  3 <= length o -> length d = length o -> identity_rule o d ->
  exists o' : row,
    check_and_update_duplicate [o; d] = (Ok tt, [o'])
    /\ length o' = length o
    /\ (forall c, c < 2 -> o' !! c = o !! c)
    /\ (forall c x v, 2 <= c -> o !! c = Some x -> d !! c = Some v ->
          o' !! c = Some (if truthy v then v else x)).
Proof.
  intros Hw Hd Hrule. exists (merge_row o d).
  assert (identity_rule_b o d = true) as Hb
    by (apply identity_rule_b_spec; [lia | lia | assumption]).
  split; [|split; [apply merge_row_length|split]].
  - unfold check_and_update_duplicate.
    rewrite (bind_ok _ _ _ _ _
               (duplicate_scan_refines (length o) [o; d] Hw
                  ltac:(repeat constructor; assumption))).
    simpl. rewrite Hb. simpl.
    unfold removing_duplicates. simpl.
    rewrite (bind_ok _ _ _ _ _
               (del_row_ok [merge_row o d; d] 1 ltac:(simpl; lia))).
    reflexivity.
  - intros c Hc. now apply merge_row_names.
  - intros c x v Hc Hx Hv. apply merge_row_field; [assumption | lia | assumption..].
Qed.

Lemma keep_rows_first (idxs : list nat) (r : row) (t : table) :
  Forall (fun k => 0 < k) idxs -> keep_rows idxs (r :: t) !! 0 = Some r.
Proof.
  intros H. unfold keep_rows. simpl.
  rewrite bool_decide_eq_false_2; [reflexivity|].
  intros Hin. rewrite Forall_forall in H. apply H in Hin. lia.
Qed.

(** X16: the whole step as a fold.  On a table of equal-width rows (at
    least 3 wide) on which the scan records no index twice,
    [check_and_update_duplicate] returns normally: the table becomes the
    rows that were not recorded, in their order, each with the fields of
    its duplicates merged into it; it is shorter by the number of recorded
    indexes, and its first row is the first row of the input with its
    duplicates merged. *)
Theorem check_and_update_duplicate_without_repeats (w : nat) (t : table) :
  3 <= w -> Forall (fun r : row => length r = w) t ->
  NoDup (all_recorded 0 t) ->
  check_and_update_duplicate t
  = (Ok tt, keep_rows (all_recorded 0 t) (scanned t))
  /\ length (keep_rows (all_recorded 0 t) (scanned t))
     = length t - length (all_recorded 0 t)
  /\ sublist (keep_rows (all_recorded 0 t) (scanned t)) (scanned t)
  /\ forall r : row, t !! 0 = Some r ->
       keep_rows (all_recorded 0 t) (scanned t) !! 0
       = Some (absorbed r (drop 1 t)).
Proof.
  intros Hw Ht Hnd.
  assert (Forall (fun i => i < length (scanned t)) (all_recorded 0 t)) as Hin.
  { rewrite scanned_length.
    eapply Forall_impl; [apply all_recorded_bound|]. simpl. intros; lia. }
  destruct (removing_duplicates_distinct _ (scanned t) Hnd Hin) as [Hrun Hlen].
  split; [|split; [|split]].
  - unfold check_and_update_duplicate.
    now rewrite (bind_ok _ _ _ _ _ (duplicate_scan_refines w t Hw Ht)).
  - now rewrite Hlen, scanned_length.
  - apply keep_rows_from_sublist.
  - intros r Hr. destruct t as [|r0 t]; [discriminate|].
    injection Hr as ->. simpl scanned. simpl drop.
    apply keep_rows_first.
    eapply Forall_impl; [apply all_recorded_bound|]. simpl. intros; lia.
Qed.

(** X17: formatting, then scanning.  On a table whose rows all have the
    same width, at least 6, [format_contact_list] followed by the two loops
    of [check_and_update_duplicate] never raises; the table keeps its number
    of rows and the width of its rows up to the removal step. *)
Theorem scan_after_formatting_never_raises
    (unicode_decimal : N -> bool) (w : nat) (t : table) :
  6 <= w -> Forall (fun r : row => length r = w) t ->
  exists (idxs : list nat) (t' : table),
    (let* _ := format_contact_list unicode_decimal in duplicate_scan) t
    = (Ok idxs, t')
    /\ length t' = length t
    /\ Forall (fun r : row => length r = w) t'.
Proof.
  intros Hw Ht.
  assert (Forall (fun r : row => 6 <= length r) t) as Hwide
    by (eapply Forall_impl; [exact Ht|]; simpl; intros; lia).
  assert (Forall (fun r : row => length r = w)
            (map (format_row unicode_decimal) t)) as Ht1.
  { apply Forall_forall. intros r' Hr'.
    apply list_elem_of_In, in_map_iff in Hr' as (r & <- & Hr).
    apply list_elem_of_In in Hr. rewrite Forall_forall in Ht, Hwide.
    rewrite format_row_length; [now apply Ht | now apply Hwide]. }
  exists (all_recorded 0 (map (format_row unicode_decimal) t)),
         (scanned (map (format_row unicode_decimal) t)).
  split; [|split].
  - rewrite (bind_ok _ _ _ _ _
               (format_contact_list_wide unicode_decimal t Hwide)).
    apply (duplicate_scan_refines w); [lia | assumption].
  - now rewrite scanned_length, length_map.
  - apply Forall_forall. intros r' Hr'.
    apply list_elem_of_lookup in Hr' as [k Hk].
    rewrite scanned_lookup in Hk.
    destruct (map (format_row unicode_decimal) t !! k) as [r|] eqn:E;
      [|discriminate].
    injection Hk as <-. rewrite absorbed_length.
    rewrite Forall_forall in Ht1. apply Ht1.
    apply list_elem_of_lookup. eauto.
Qed.

(** ** Phone numbers, once more *)

Section PhoneDigits.

Variable unicode_decimal : N -> bool.

Lemma count_decimal_app (p q : pystr) :
  count_decimal unicode_decimal (p ++ q)
  = count_decimal unicode_decimal p + count_decimal unicode_decimal q.
Proof. unfold count_decimal. now rewrite List.filter_app, length_app. Qed.

Lemma repeat_loop_digits {R}
    (body : pystr -> groups -> (pystr -> groups -> option R) -> option R)
    lo hi (k : pystr -> groups -> option R) n :
  (forall s g k' x, body s g k' = Some x ->
     exists pre s' g',
       s = pre ++ s' /\ n <= count_decimal unicode_decimal pre
       /\ k' s' g' = Some x) ->
  forall fuel count s g x,
    lo <= count + fuel ->
    repeat_loop body lo hi k fuel count s g = Some x ->
    exists pre s' g',
      s = pre ++ s'
      /\ (lo - count) * n <= count_decimal unicode_decimal pre
      /\ k s' g' = Some x.
Proof.
  intros Hbody. induction fuel as [|fuel IH]; intros count s g x Hfuel H.
  - simpl in H. exists [], s, g.
    replace (lo - count) with 0 by lia. repeat split; [simpl; lia | assumption].
  - simpl in H. destruct (Nat.ltb_spec count lo) as [Hlt|Hge].
    + apply Hbody in H as (pre1 & s1 & g1 & -> & Hn & H).
      apply IH in H as (pre2 & s' & g' & -> & Hm & H); [|lia].
      exists (pre1 ++ pre2), s', g'. rewrite count_decimal_app.
      repeat split; [now rewrite app_assoc | nia | assumption].
    + assert (exists pre s' g', s = pre ++ s' /\ k s' g' = Some x)
        as (pre & s' & g' & -> & Hk).
      { destruct (below hi count).
        - match type of H with
          | match ?b with _ => _ end = _ => destruct b as [y|] eqn:Hb
          end.
          + injection H as ->.
            apply Hbody in Hb as (pre1 & s1 & g1 & -> & Hn & Hb).
            destruct (length s1 <? length (pre1 ++ s1)); [|discriminate].
            apply IH in Hb as (pre2 & s' & g' & -> & _ & Hb); [|lia].
            exists (pre1 ++ pre2), s', g'.
            split; [now rewrite app_assoc | assumption].
          + exists [], s, g. split; [reflexivity | assumption].
        - exists [], s, g. split; [reflexivity | assumption]. }
      exists pre, s', g'. replace (lo - count) with 0 by lia.
      repeat split; [simpl; lia | assumption].
Qed.

Lemma one_char_consumed {R} p s g (k : pystr -> groups -> option R) x :
  one_char p s g k = Some x ->
  exists c s', s = [c] ++ s' /\ p c = true /\ k s' g = Some x.
Proof.
  unfold one_char. destruct s as [|c s']; [discriminate|].
  destruct (p c) eqn:Hp; [|discriminate]. intros H.
  exists c, s'. auto.
Qed.

(** A match consumes at least [min_digits r] decimal digits. *)
Lemma rmatch_digits {R} r : forall s g (k : pystr -> groups -> option R) x,
  rmatch unicode_decimal r s g k = Some x ->
  exists pre s' g',
    s = pre ++ s' /\ min_digits r <= count_decimal unicode_decimal pre
    /\ k s' g' = Some x.
Proof.
  induction r as [|c| |c|items|r1 IH1 r2 IH2|r1 IH1 r2 IH2|lo hi r1 IH1|n r1 IH1];
    intros s g k x H; simpl in H.
  - exists [], s, g. repeat split; [simpl; lia | assumption].
  - apply one_char_consumed in H as (c' & s' & -> & _ & H).
    exists [c'], s', g. repeat split; [simpl; lia | assumption].
  - apply one_char_consumed in H as (c' & s' & -> & _ & H).
    exists [c'], s', g. repeat split; [simpl; lia | assumption].
  - apply one_char_consumed in H as (c' & s' & -> & Hc & H).
    exists [c'], s', g. repeat split; [|assumption].
    destruct c; simpl in *; [|lia].
    unfold count_decimal. simpl. rewrite Hc. simpl. lia.
  - apply one_char_consumed in H as (c' & s' & -> & _ & H).
    exists [c'], s', g. repeat split; [simpl; lia | assumption].
  - apply IH1 in H as (pre1 & s1 & g1 & -> & Hn1 & H).
    apply IH2 in H as (pre2 & s' & g' & -> & Hn2 & H).
    exists (pre1 ++ pre2), s', g'. rewrite count_decimal_app.
    repeat split; [now rewrite app_assoc | simpl; lia | assumption].
  - destruct (rmatch unicode_decimal r1 s g k) as [y|] eqn:H1.
    + injection H as ->.
      apply IH1 in H1 as (pre & s' & g' & -> & Hn & H1).
      exists pre, s', g'. repeat split; [simpl; lia | assumption].
    + apply IH2 in H as (pre & s' & g' & -> & Hn & H).
      exists pre, s', g'. repeat split; [simpl; lia | assumption].
  - apply (repeat_loop_digits _ lo hi k (min_digits r1) IH1) in H; [|lia].
    destruct H as (pre & s' & g' & -> & Hn & H).
    exists pre, s', g'. repeat split; [simpl; lia | assumption].
  - apply IH1 in H as (pre & s' & g' & -> & Hn & H).
    eexists pre, s', _. repeat split; [assumption | exact H].
Qed.

Lemma search_needs_digits r s :
  count_decimal unicode_decimal s < min_digits r ->
  search unicode_decimal r s = None.
Proof.
  intros Hfew.
  destruct (search unicode_decimal r s) as [[[pre g] rest]|] eqn:Hs;
    [|reflexivity].
  destruct (search_some _ _ _ _ _ _ Hs) as (m & -> & _ & Hm & _).
  unfold match_at in Hm.
  apply rmatch_digits in Hm as (pre0 & s' & g' & E & Hn & _).
  rewrite E, !count_decimal_app in Hfew. lia.
Qed.

End PhoneDigits.

(** X18: a string with fewer than ten decimal digits has no match of the
    pattern, and [format_phone] returns it unchanged. *)
Theorem format_phone_needs_ten_digits
    (unicode_decimal : N -> bool) (phone : pystr) :
  count_decimal unicode_decimal phone < 10 ->
  format_phone unicode_decimal phone = phone.
Proof.
  intros Hfew. unfold format_phone, sub. cbn [sub_loop].
  now rewrite (search_needs_digits unicode_decimal pattern_compiled phone Hfew).
Qed.

Section PhoneCanonical.

Variable unicode_decimal : N -> bool.

(** How the tests of the pattern answer on an ASCII digit. *)
Lemma ascii_digit_tests (x : N) :
  in_range 48 57 x = true ->
  category_mem unicode_decimal CATEGORY_DIGIT x = true
  /\ class_mem unicode_decimal [CCat CATEGORY_SPACE; CLit (ch "-")] x = false
  /\ class_mem unicode_decimal [CLit (ch "("); CLit (ch " ")] x = false
  /\ class_mem unicode_decimal [CRange (ch " ") (ch ")")] x = false.
Proof.
  intros H. unfold in_range in H.
  apply andb_true_iff in H as [Hlo Hhi].
  apply N.leb_le in Hlo. apply N.leb_le in Hhi.
  assert (x = 48 \/ x = 49 \/ x = 50 \/ x = 51 \/ x = 52 \/ x = 53
          \/ x = 54 \/ x = 55 \/ x = 56 \/ x = 57)%N as Hx by lia.
  repeat (destruct Hx as [->|Hx]); try subst x;
    repeat split; vm_compute; reflexivity.
Qed.

Lemma rmatch_class_fails {R} items x s g (k : pystr -> groups -> option R) :
  class_mem unicode_decimal items x = false ->
  rmatch unicode_decimal (In items) (x :: s) g k = None.
Proof. intros H. cbn [rmatch one_char]. now rewrite H. Qed.

Lemma rmatch_star_skips {R} r x s g (k : pystr -> groups -> option R) :
  (forall k' : pystr -> groups -> option R,
      rmatch unicode_decimal r (x :: s) g k' = None) ->
  rmatch unicode_decimal (MaxRepeat 0 None r) (x :: s) g k = k (x :: s) g.
Proof.
  intros H. cbn [rmatch Nat.add length repeat_loop Nat.ltb Nat.leb below].
  now rewrite H.
Qed.

Lemma rmatch_opt_skips {R} r x s g (k : pystr -> groups -> option R) :
  (forall k' : pystr -> groups -> option R,
      rmatch unicode_decimal r (x :: s) g k' = None) ->
  rmatch unicode_decimal (opt r) (x :: s) g k = k (x :: s) g.
Proof.
  intros H. unfold opt.
  cbn [rmatch Nat.add length repeat_loop Nat.ltb Nat.leb below].
  now rewrite H.
Qed.

Lemma rmatch_opt_at_end {R} r g (k : pystr -> groups -> option R) :
  rmatch unicode_decimal (opt r) [] g k = k [] g.
Proof. reflexivity. Qed.

Lemma rmatch_digit {R} x s g (k : pystr -> groups -> option R) :
  in_range 48 57 x = true ->
  rmatch unicode_decimal (Cat CATEGORY_DIGIT) (x :: s) g k = k s g.
Proof.
  intros H. destruct (ascii_digit_tests x H) as (Hd & _).
  cbn [rmatch one_char]. now rewrite Hd.
Qed.

Lemma rmatch_two_digits {R} a b s g (k : pystr -> groups -> option R) :
  in_range 48 57 a = true -> in_range 48 57 b = true ->
  rmatch unicode_decimal (digits 2) (a :: b :: s) g k = k s g.
Proof.
  intros Ha Hb. unfold digits.
  destruct (ascii_digit_tests a Ha) as (Hda & _).
  destruct (ascii_digit_tests b Hb) as (Hdb & _).
  cbn [rmatch one_char Nat.add length repeat_loop Nat.ltb Nat.leb below].
  rewrite Hda.
  cbn [rmatch one_char Nat.add length repeat_loop Nat.ltb Nat.leb below].
  rewrite Hdb. reflexivity.
Qed.

Lemma rmatch_three_digits {R} a b c s g (k : pystr -> groups -> option R) :
  in_range 48 57 a = true -> in_range 48 57 b = true ->
  in_range 48 57 c = true ->
  rmatch unicode_decimal (digits 3) (a :: b :: c :: s) g k = k s g.
Proof.
  intros Ha Hb Hc. unfold digits.
  destruct (ascii_digit_tests a Ha) as (Hda & _).
  destruct (ascii_digit_tests b Hb) as (Hdb & _).
  destruct (ascii_digit_tests c Hc) as (Hdc & _).
  cbn [rmatch one_char Nat.add length repeat_loop Nat.ltb Nat.leb below].
  rewrite Hda.
  cbn [rmatch one_char Nat.add length repeat_loop Nat.ltb Nat.leb below].
  rewrite Hdb.
  cbn [rmatch one_char Nat.add length repeat_loop Nat.ltb Nat.leb below].
  rewrite Hdc. reflexivity.
Qed.

Lemma rmatch_seq {R} r1 r2 s g (k : pystr -> groups -> option R) :
  rmatch unicode_decimal (Seq r1 r2) s g k
  = rmatch unicode_decimal r1 s g
      (fun s' g' => rmatch unicode_decimal r2 s' g' k).
Proof. reflexivity. Qed.

Lemma rmatch_group {R} n r s g (k : pystr -> groups -> option R) :
  rmatch unicode_decimal (Group n r) s g k
  = rmatch unicode_decimal r s g
      (fun s' g' => k s' (set_group n (take (length s - length s') s) g')).
Proof. reflexivity. Qed.

Lemma rmatch_empty {R} s g (k : pystr -> groups -> option R) :
  rmatch unicode_decimal Empty s g k = k s g.
Proof. reflexivity. Qed.

Lemma rmatch_separators_skip {R} x s g (k : pystr -> groups -> option R) :
  class_mem unicode_decimal [CCat CATEGORY_SPACE; CLit (ch "-")] x = false ->
  rmatch unicode_decimal separators (x :: s) g k = k (x :: s) g.
Proof.
  intros H. unfold separators. apply rmatch_star_skips.
  intros k'. now apply rmatch_class_fails.
Qed.

Lemma rmatch_opt_class_skip {R} items x s g
    (k : pystr -> groups -> option R) :
  class_mem unicode_decimal items x = false ->
  rmatch unicode_decimal (opt (In items)) (x :: s) g k = k (x :: s) g.
Proof.
  intros H. apply rmatch_opt_skips.
  intros k'. now apply rmatch_class_fails.
Qed.

(** The country code ["8"] is taken when the rest of the pattern matches
    after it. *)
Lemma rmatch_country_code_8 {R} s g (k : pystr -> groups -> option R) x :
  k s (set_group 1 [ch "8"] g) = Some x ->
  rmatch unicode_decimal
    (opt (Group 1 (Branch (Seq (Lit (ch "+")) (Lit (ch "7"))) (Lit (ch "8")))))
    (ch "8" :: s) g k
  = Some x.
Proof.
  intros Hk. unfold opt.
  cbn [rmatch Nat.add length repeat_loop Nat.ltb Nat.leb below one_char].
  change (N.eqb (ch "+") (ch "8")) with false.
  change (N.eqb (ch "8") (ch "8")) with true.
  cbv iota. rewrite Nat.leb_refl.
  replace (S (length s) - length s) with 1 by lia.
  cbn [take firstn].
  rewrite take_0.
  destruct (length s); cbn [repeat_loop Nat.ltb Nat.leb below];
    now rewrite Hk.
Qed.

Lemma match_at_eight_and_ten_digits (a b c d e f g h i j : N) :
  Forall (fun x => in_range 48 57 x = true) [a; b; c; d; e; f; g; h; i; j] ->
  match_at unicode_decimal pattern_compiled
    (ch "8" :: [a; b; c; d; e; f; g; h; i; j])
  = Some (set_group 5 [i; j]
            (set_group 4 [g; h]
               (set_group 3 [d; e; f]
                  (set_group 2 [a; b; c]
                     (set_group 1 [ch "8"] no_groups)))), []).
Proof.
  intros H.
  repeat (apply Forall_cons in H as [? H]).
  destruct (ascii_digit_tests a) as (_ & Hsa & Hpa & _); [assumption|].
  destruct (ascii_digit_tests d) as (_ & Hsd & _ & Hrd); [assumption|].
  destruct (ascii_digit_tests g) as (_ & Hsg & _); [assumption|].
  destruct (ascii_digit_tests i) as (_ & Hsi & _); [assumption|].
  unfold match_at, pattern_compiled, seq_all, foldr.
  rewrite rmatch_seq. apply rmatch_country_code_8. cbv beta.
  rewrite rmatch_seq, (rmatch_separators_skip a) by assumption. cbv beta.
  rewrite rmatch_seq, (rmatch_opt_class_skip _ a) by assumption. cbv beta.
  rewrite rmatch_seq, rmatch_group, rmatch_three_digits by assumption.
  cbv beta.
  rewrite rmatch_seq, (rmatch_opt_class_skip _ d) by assumption. cbv beta.
  rewrite rmatch_seq, (rmatch_separators_skip d) by assumption. cbv beta.
  rewrite rmatch_seq, rmatch_group, rmatch_three_digits by assumption.
  cbv beta.
  rewrite rmatch_seq, (rmatch_separators_skip g) by assumption. cbv beta.
  rewrite rmatch_seq, rmatch_group, rmatch_two_digits by assumption.
  cbv beta.
  rewrite rmatch_seq, (rmatch_separators_skip i) by assumption. cbv beta.
  rewrite rmatch_seq, rmatch_group, rmatch_two_digits by assumption.
  cbv beta.
  rewrite rmatch_seq, rmatch_opt_at_end. cbv beta.
  rewrite rmatch_empty.
  reflexivity.
Qed.

End PhoneCanonical.

Lemma search_at_start nd r s g rest :
  match_at nd r s = Some (g, rest) -> search nd r s = Some ([], g, rest).
Proof. intros H. destruct s; simpl; now rewrite H. Qed.

Lemma sub_loop_step nd fuel r t s pre g rest :
  search nd r s = Some (pre, g, rest) ->
  sub_loop nd (S fuel) r t s = pre ++ expand t g ++ sub_loop nd fuel r t rest.
Proof. intros H. simpl. now rewrite H. Qed.

Lemma sub_loop_step_none nd fuel r t s :
  search nd r s = None -> sub_loop nd fuel r t s = s.
Proof. intros H. destruct fuel; simpl; [reflexivity | now rewrite H]. Qed.

Lemma sub_loop_nil nd fuel r t :
  match_at nd r [] = None -> sub_loop nd fuel r t [] = [].
Proof. intros H. destruct fuel; simpl; [reflexivity | now rewrite H]. Qed.

Lemma pattern_compiled_not_empty nd :
  match_at nd pattern_compiled [] = None.
Proof. reflexivity. Qed.

(** X19: the plain eleven-digit form.  For every ten ASCII digits, the
    string made of ["8"] and the ten digits is rewritten to
    [+7(XXX)XXX-XX-XX], followed by the space that the template always
    writes. *)
Theorem format_phone_eight_and_ten_digits
    (unicode_decimal : N -> bool) (a b c d e f g h i j : N) :
  Forall (fun x => in_range 48 57 x = true) [a; b; c; d; e; f; g; h; i; j] ->
  format_phone unicode_decimal (py "8" ++ [a; b; c; d; e; f; g; h; i; j])
  = py "+7(" ++ [a; b; c] ++ py ")" ++ [d; e; f] ++ py "-" ++ [g; h]
    ++ py "-" ++ [i; j] ++ py " ".
Proof.
  intros H. unfold format_phone, sub.
  change (py "8" ++ [a; b; c; d; e; f; g; h; i; j])
    with (ch "8" :: [a; b; c; d; e; f; g; h; i; j]).
  rewrite (sub_loop_step _ _ _ _ _ _ _ _
             (search_at_start _ _ _ _ _
                (match_at_eight_and_ten_digits unicode_decimal
                   a b c d e f g h i j H))).
  rewrite (sub_loop_nil _ _ _ _ (pattern_compiled_not_empty unicode_decimal)).
  reflexivity.
Qed.

Section PhoneSecondPass.

Variable unicode_decimal : N -> bool.

Lemma rmatch_country_code_plus_7 {R} s g
    (k : pystr -> groups -> option R) x :
  k s (set_group 1 [ch "+"; ch "7"] g) = Some x ->
  rmatch unicode_decimal
    (opt (Group 1 (Branch (Seq (Lit (ch "+")) (Lit (ch "7"))) (Lit (ch "8")))))
    (ch "+" :: ch "7" :: s) g k
  = Some x.
Proof.
  intros Hk. unfold opt.
  cbn [rmatch Nat.add length repeat_loop Nat.ltb Nat.leb below one_char].
  change (N.eqb (ch "+") (ch "+")) with true.
  change (N.eqb (ch "7") (ch "7")) with true.
  cbv iota.
  replace (length s <=? S (length s)) with true
    by (symmetry; apply Nat.leb_le; lia).
  replace (S (S (length s)) - length s) with 2 by lia.
  cbn [take firstn]. rewrite take_0.
  cbn [repeat_loop Nat.ltb Nat.leb below].
  now rewrite Hk.
Qed.

Lemma rmatch_opt_class_takes {R} items x s g
    (k : pystr -> groups -> option R) y :
  class_mem unicode_decimal items x = true ->
  k s g = Some y ->
  rmatch unicode_decimal (opt (In items)) (x :: s) g k = Some y.
Proof.
  intros Hx Hk. unfold opt.
  cbn [rmatch Nat.add length repeat_loop Nat.ltb Nat.leb below one_char].
  rewrite Hx, Nat.leb_refl.
  destruct (length s); cbn [repeat_loop Nat.ltb Nat.leb below];
    now rewrite Hk.
Qed.

Lemma rmatch_separators_take_one {R} x y s g
    (k : pystr -> groups -> option R) z :
  class_mem unicode_decimal [CCat CATEGORY_SPACE; CLit (ch "-")] x = true ->
  class_mem unicode_decimal [CCat CATEGORY_SPACE; CLit (ch "-")] y = false ->
  k (y :: s) g = Some z ->
  rmatch unicode_decimal separators (x :: y :: s) g k = Some z.
Proof.
  intros Hx Hy Hk. unfold separators.
  cbn [rmatch Nat.add length repeat_loop Nat.ltb Nat.leb below one_char].
  rewrite Hx, Nat.leb_refl, Hy. now rewrite Hk.
Qed.

Lemma rmatch_opt_extension_at_space {R} g (k : pystr -> groups -> option R) :
  rmatch unicode_decimal (opt extension) [ch " "] g k = k [ch " "] g.
Proof. reflexivity. Qed.

Lemma match_at_canonical_and_space (a b c d e f g h i j : N) :
  Forall (fun x => in_range 48 57 x = true) [a; b; c; d; e; f; g; h; i; j] ->
  match_at unicode_decimal pattern_compiled
    (ch "+" :: ch "7" :: ch "(" :: a :: b :: c :: ch ")" :: d :: e :: f
     :: ch "-" :: g :: h :: ch "-" :: i :: j :: [ch " "])
  = Some (set_group 5 [i; j]
            (set_group 4 [g; h]
               (set_group 3 [d; e; f]
                  (set_group 2 [a; b; c]
                     (set_group 1 [ch "+"; ch "7"] no_groups)))),
          [ch " "]).
Proof.
  intros H.
  repeat (apply Forall_cons in H as [? H]).
  destruct (ascii_digit_tests unicode_decimal d) as (_ & Hsd & _);
    [assumption|].
  destruct (ascii_digit_tests unicode_decimal g) as (_ & Hsg & _);
    [assumption|].
  destruct (ascii_digit_tests unicode_decimal i) as (_ & Hsi & _);
    [assumption|].
  unfold match_at, pattern_compiled, seq_all, foldr.
  rewrite rmatch_seq. apply rmatch_country_code_plus_7. cbv beta.
  rewrite rmatch_seq, (rmatch_separators_skip _ (ch "(")) by reflexivity.
  cbv beta.
  rewrite rmatch_seq.
  apply rmatch_opt_class_takes; [reflexivity|].
  rewrite rmatch_seq, rmatch_group, rmatch_three_digits by assumption.
  cbv beta.
  rewrite rmatch_seq.
  apply rmatch_opt_class_takes; [reflexivity|].
  rewrite rmatch_seq, (rmatch_separators_skip _ d) by assumption. cbv beta.
  rewrite rmatch_seq, rmatch_group, rmatch_three_digits by assumption.
  cbv beta.
  rewrite rmatch_seq.
  apply rmatch_separators_take_one; [reflexivity | assumption |].
  rewrite rmatch_seq, rmatch_group, rmatch_two_digits by assumption.
  cbv beta.
  rewrite rmatch_seq.
  apply rmatch_separators_take_one; [reflexivity | assumption |].
  rewrite rmatch_seq, rmatch_group, rmatch_two_digits by assumption.
  cbv beta.
  rewrite rmatch_seq, rmatch_opt_extension_at_space. cbv beta.
  rewrite rmatch_empty.
  reflexivity.
Qed.

Lemma search_space_only :
  search unicode_decimal pattern_compiled [ch " "] = None.
Proof. reflexivity. Qed.

End PhoneSecondPass.

(** X20: every pass adds a space.  For every ten ASCII digits, formatting
    the output of [format_phone] on ["8"] and the ten digits once more
    returns that output followed by one more space: the canonical number
    matches again and the template writes its space again. *)
Theorem format_phone_appends_a_space_on_each_pass
    (unicode_decimal : N -> bool) (a b c d e f g h i j : N) :
  Forall (fun x => in_range 48 57 x = true) [a; b; c; d; e; f; g; h; i; j] ->
  format_phone unicode_decimal
    (format_phone unicode_decimal
       (py "8" ++ [a; b; c; d; e; f; g; h; i; j]))
  = format_phone unicode_decimal (py "8" ++ [a; b; c; d; e; f; g; h; i; j])
    ++ py " ".
Proof.
  intros H.
  assert (format_phone unicode_decimal
            (py "8" ++ [a; b; c; d; e; f; g; h; i; j])
          = ch "+" :: ch "7" :: ch "(" :: a :: b :: c :: ch ")" :: d :: e :: f
            :: ch "-" :: g :: h :: ch "-" :: i :: j :: [ch " "]) as E.
  { unfold format_phone, sub.
    change (py "8" ++ [a; b; c; d; e; f; g; h; i; j])
      with (ch "8" :: [a; b; c; d; e; f; g; h; i; j]).
    rewrite (sub_loop_step _ _ _ _ _ _ _ _
               (search_at_start _ _ _ _ _
                  (match_at_eight_and_ten_digits unicode_decimal
                     a b c d e f g h i j H))).
    rewrite (sub_loop_nil _ _ _ _ (pattern_compiled_not_empty unicode_decimal)).
    reflexivity. }
  rewrite E. unfold format_phone, sub.
  rewrite (sub_loop_step _ _ _ _ _ _ _ _
             (search_at_start _ _ _ _ _
                (match_at_canonical_and_space unicode_decimal
                   a b c d e f g h i j H))).
  cbn [length].
  rewrite (sub_loop_step_none unicode_decimal _ _ _ _
             (search_space_only unicode_decimal)).
  reflexivity.
Qed.

(** ** Examples of the further properties *)

Lemma sample_table_wide : Forall (fun r : row => 6 <= length r) sample_table.
Proof.
  repeat (apply Forall_cons; split; [simpl; lia|]). apply Forall_nil.
  constructor.
Qed.

Lemma format_contact_list_formats_every_row_witness :
  Forall (fun r : row => 6 <= length r) sample_table
  /\ exists t' : table,
       format_contact_list ascii_only sample_table = (Ok tt, t')
       /\ length t' = length sample_table.
Proof.
  split; [exact sample_table_wide|].
  destruct (format_contact_list_formats_every_row ascii_only sample_table
              sample_table_wide) as (t' & E & L & _).
  exists t'. split; assumption.
Defined.

Ltac forall_rows tac :=
  repeat (apply Forall_cons; split; [tac|]); apply Forall_nil; constructor.

Lemma format_contact_list_short_row_witness :
  exists bad' : row,
    format_contact_list ascii_only
      ([sample_origin] ++ [py "Ivanov"; py "Ivan"] :: [sample_duplicate])
    = (Raise IndexError,
       map (format_row ascii_only) [sample_origin] ++ bad'
       :: [sample_duplicate])
    /\ length bad' = length [py "Ivanov"; py "Ivan"].
Proof.
  apply (format_contact_list_short_row_raises ascii_only
           [sample_origin] [sample_duplicate] [py "Ivanov"; py "Ivan"]).
  - forall_rows ltac:(simpl; lia).
  - simpl; lia.
Defined.

Lemma merging_touches_only_the_column_range_witness :
  exists o' : row,
    merging_contact_lines 0 1 (Some 3%Z) (Some 5%Z) sample_table
    = (Ok tt, <[0 := o']> sample_table)
    /\ o' !! 2 = sample_origin !! 2 /\ o' !! 5 = sample_origin !! 5.
Proof.
  destruct (merging_touches_only_the_column_range
              sample_table 0 1 sample_origin sample_duplicate
              (Some 3%Z) (Some 5%Z))
    as (o' & E & _ & _ & Hout);
    [reflexivity | reflexivity | lia | simpl; lia | vm_compute; discriminate|].
  exists o'. split; [exact E|].
  split; apply Hout; vm_compute; [left | right]; congruence.
Defined.

Lemma merging_a_row_into_itself_witness :
  merging_contact_lines 0 0 None None sample_table = (Ok tt, sample_table)
  /\ merging_contact_lines 0 0 (Some 7%Z) (Some (-1)%Z) sample_table
     = (Raise IndexError, sample_table).
Proof.
  split.
  - apply (merging_a_row_into_itself sample_table 0 sample_origin None None);
      [reflexivity | vm_compute; discriminate].
  - apply (merging_a_row_into_itself
             sample_table 0 sample_origin (Some 7%Z) (Some (-1)%Z));
      [reflexivity | vm_compute; reflexivity].
Defined.

Lemma merging_from_a_narrower_duplicate_witness :
  exists o' : row,
    merging_contact_lines 0 1 (Some 2%Z) None narrow_table
    = (Raise IndexError, <[0 := o']> narrow_table)
    /\ o' !! 2 = Some (py "Petrovich")
    /\ o' !! 5 = Some (py "89161234567").
Proof.
  destruct (merging_from_a_narrower_duplicate_is_partial
              narrow_table 0 1 sample_origin
              [py "Ivanov"; py "Ivan"; py "Petrovich"] (Some 2%Z) None)
    as (o' & E & _ & Hin & Hout);
    [reflexivity | reflexivity | lia | vm_compute; discriminate
     | vm_compute; reflexivity|].
  exists o'. split; [exact E|]. split.
  - apply (Hin 2 [] (py "Petrovich")); [vm_compute; discriminate | reflexivity..].
  - rewrite (Hout 5); [reflexivity | right; simpl; lia].
Defined.

Lemma merging_again_changes_nothing_witness :
  exists t1 : table,
    merging_contact_lines 0 1 (Some 2%Z) None sample_table = (Ok tt, t1)
    /\ merging_contact_lines 0 1 (Some 2%Z) None t1 = (Ok tt, t1).
Proof.
  apply (merging_again_changes_nothing
           sample_table 0 1 sample_origin sample_duplicate (Some 2%Z) None);
    [reflexivity | reflexivity | lia | simpl; lia | vm_compute; discriminate].
Defined.

Lemma removing_distinct_indexes_witness :
  removing_duplicates [1] sample_table = (Ok tt, [sample_origin]).
Proof.
  apply (removing_distinct_indexes_keeps_the_other_rows [1] sample_table).
  - apply NoDup_singleton.
  - forall_rows ltac:(simpl; lia).
Defined.

Lemma removing_ignores_the_order_witness :
  removing_duplicates [1; 0; 2] three_patronymics
  = removing_duplicates [0; 1; 2] three_patronymics.
Proof.
  apply (removing_ignores_the_order_of_the_indexes [1; 0; 2] [0; 1; 2]).
  apply Permutation_swap.
Defined.

Lemma removing_an_index_out_of_range_witness :
  removing_duplicates_int [0; 5]%Z sample_table
  = (Raise IndexError, sample_table)
  /\ (exists t', removing_duplicates_int [0; -5]%Z sample_table
                 = (Raise IndexError, t')
                 /\ t' `sublist_of` sample_table)
  /\ removing_duplicates_int [0; -5]%Z sample_table
     = (Raise IndexError, [sample_duplicate]).
Proof.
  split; [|split].
  - apply (removing_an_index_out_of_range_raises [0; 5]%Z sample_table 5%Z).
    + apply elem_of_cons. right. apply elem_of_cons. now left.
    + simpl. lia.
  - apply (removing_an_index_out_of_range_raises
             [0; -5]%Z sample_table (-5)%Z).
    + apply elem_of_cons. right. apply elem_of_cons. now left.
    + simpl. lia.
  - reflexivity.
Defined.

Lemma three_patronymics_width :
  Forall (fun r : row => length r = 6) three_patronymics.
Proof. forall_rows ltac:(reflexivity). Qed.

Lemma duplicate_scan_keeps_names_witness :
  exists (idxs : list nat) (t' : table),
    duplicate_scan three_patronymics = (Ok idxs, t')
    /\ length t' = length three_patronymics
    /\ Forall (fun k => 0 < k < length three_patronymics) idxs.
Proof.
  destruct (duplicate_scan_keeps_names_and_filled_fields 6 three_patronymics)
    as (idxs & t' & E & L & B & _); [lia | exact three_patronymics_width|].
  exists idxs, t'. repeat split; assumption.
Defined.

Lemma table_without_duplicates_witness :
  check_and_update_duplicate two_people = (Ok tt, two_people).
Proof.
  apply (table_without_duplicates_is_unchanged 6 two_people).
  - lia.
  - forall_rows ltac:(reflexivity).
  - intros i j o d Hij Hi Hj (H0 & _).
    destruct i as [|[|i]]; destruct j as [|[|j]]; try lia;
      try discriminate.
    injection Hi as <-. injection Hj as <-. discriminate.
Defined.

Lemma two_rows_of_one_person_witness :
  exists o' : row,
    check_and_update_duplicate [sample_origin; sample_duplicate]
    = (Ok tt, [o'])
    /\ o' !! 2 = Some (py "Petrovich")
    /\ o' !! 3 = Some (py "ACME").
Proof.
  destruct (two_rows_of_one_person_become_one sample_origin sample_duplicate)
    as (o' & E & _ & _ & Hin).
  - simpl; lia.
  - reflexivity.
  - unfold identity_rule. simpl. auto.
  - exists o'. split; [exact E|]. split.
    + apply (Hin 2 [] (py "Petrovich")); [lia | reflexivity..].
    + apply (Hin 3 (py "ACME") []); [lia | reflexivity..].
Defined.

Lemma check_and_update_duplicate_without_repeats_witness :
  check_and_update_duplicate three_patronymics
  = (Ok tt,
     [ [py "Ivanov"; py "Ivan"; py "Petrovich"; []; []; py "102"];
       [py "Ivanov"; py "Ivan"; py "Sergeevich"; []; []; py "103"] ]).
Proof.
  apply (check_and_update_duplicate_without_repeats 6 three_patronymics).
  - lia.
  - exact three_patronymics_width.
  - vm_compute. apply NoDup_singleton.
Defined.

Lemma scan_after_formatting_witness :
  exists (idxs : list nat) (t' : table),
    (let* _ := format_contact_list ascii_only in duplicate_scan) sample_table
    = (Ok idxs, t')
    /\ length t' = length sample_table
    /\ Forall (fun r : row => length r = 6) t'.
Proof.
  apply (scan_after_formatting_never_raises ascii_only 6 sample_table).
  - lia.
  - forall_rows ltac:(reflexivity).
Defined.

Lemma format_phone_needs_ten_digits_witness :
  count_decimal ascii_only (py "tel. 123-45-67") < 10
  /\ format_phone ascii_only (py "tel. 123-45-67") = py "tel. 123-45-67".
Proof.
  assert (count_decimal ascii_only (py "tel. 123-45-67") < 10) as H
    by (vm_compute; lia).
  split; [exact H|].
  exact (format_phone_needs_ten_digits ascii_only (py "tel. 123-45-67") H).
Defined.

Lemma ten_sample_digits :
  Forall (fun x => in_range 48 57 x = true) (py "9161234567").
Proof. forall_rows ltac:(reflexivity). Qed.

Lemma format_phone_eight_and_ten_digits_witness :
  format_phone ascii_only (py "89161234567") = py "+7(916)123-45-67 ".
Proof.
  exact (format_phone_eight_and_ten_digits ascii_only
           (ch "9") (ch "1") (ch "6") (ch "1") (ch "2") (ch "3") (ch "4")
           (ch "5") (ch "6") (ch "7") ten_sample_digits).
Defined.

Lemma format_phone_appends_a_space_witness :
  format_phone ascii_only (format_phone ascii_only (py "89161234567"))
  = format_phone ascii_only (py "89161234567") ++ py " ".
Proof.
  exact (format_phone_appends_a_space_on_each_pass ascii_only
           (ch "9") (ch "1") (ch "6") (ch "1") (ch "2") (ch "3") (ch "4")
           (ch "5") (ch "6") (ch "7") ten_sample_digits).
Defined.

(** ** Short rows in the scan *)

Lemma for_fold_unchanged {S A B} (xs : list A) (acc : B)
    (body : A -> B -> M S B) (s : S) :
  (forall x, x ∈ xs -> body x acc s = (Ok acc, s)) ->
  for_fold xs acc body s = (Ok acc, s).
Proof.
  induction xs as [|x xs IH]; intros H; simpl; [reflexivity|].
  rewrite (bind_ok _ _ _ _ _ (H x ltac:(apply elem_of_cons; now left))).
  apply IH. intros y Hy. apply H. apply elem_of_cons. now right.
Qed.

Lemma scan_pair_other_last_name (t : table) i j idx (o d : row) a b :
  t !! i = Some o -> t !! j = Some d ->
  o !! 0 = Some a -> d !! 0 = Some b -> a <> b ->
  scan_pair i j idx t = (Ok idx, t).
Proof.
  intros Hi Hj Ha Hb Hne.
  assert (same_person i j t = (Ok false, t)) as Hsame.
  { unfold same_person.
    rewrite (bind_ok _ _ _ _ _ (read_cell_ok t i 0 o a Hi Ha)).
    rewrite (bind_ok _ _ _ _ _ (read_cell_ok t j 0 d b Hj Hb)).
    apply pystr_eqb_false in Hne. now rewrite Hne. }
  unfold scan_pair. now rewrite (bind_ok _ _ _ _ _ Hsame).
Qed.

(** X21: the test stops at the first difference.  A table in which any
    two rows have different last names is left as it is by
    [check_and_update_duplicate], whatever the widths of its rows: no
    column after the first is read. *)
Theorem rows_with_different_last_names_are_unchanged (t : table) :
  (forall i j (o d : row), i < j -> t !! i = Some o -> t !! j = Some d ->
     exists a b, o !! 0 = Some a /\ d !! 0 = Some b /\ a <> b) ->
  check_and_update_duplicate t = (Ok tt, t).
Proof.
  intros Hdiff.
  assert (duplicate_scan t = (Ok [], t)) as Hscan.
  { unfold duplicate_scan, bind at 1, table_len.
    apply for_fold_unchanged. intros i Hi.
    unfold range in Hi. apply list_elem_of_In, in_seq in Hi.
    unfold scan_row, bind at 1, table_len.
    apply for_fold_unchanged. intros j Hj.
    unfold range in Hj. apply list_elem_of_In, in_seq in Hj.
    destruct (lookup_lt_is_Some_2 t i ltac:(lia)) as [o Ho].
    destruct (lookup_lt_is_Some_2 t j ltac:(lia)) as [d Hd].
    destruct (Hdiff i j o d ltac:(lia) Ho Hd) as (a & b & Ha & Hb & Hne).
    now apply (scan_pair_other_last_name t i j [] o d a b). }
  unfold check_and_update_duplicate.
  now rewrite (bind_ok _ _ _ _ _ Hscan).
Qed.

Lemma rows_with_different_last_names_witness :
  check_and_update_duplicate [[py "Ivanov"]; [py "Petrov"; py "Petr"]]
  = (Ok tt, [[py "Ivanov"]; [py "Petrov"; py "Petr"]]).
Proof.
  apply (rows_with_different_last_names_are_unchanged
           [[py "Ivanov"]; [py "Petrov"; py "Petr"]]).
  intros i j o d Hij Hi Hj.
  destruct i as [|[|i]]; destruct j as [|[|j]]; try lia; try discriminate.
  injection Hi as <-. injection Hj as <-.
  exists (py "Ivanov"), (py "Petrov"). repeat split. discriminate.
Defined.

(** X22: two rows with the same last and first name, of which one has
    only these two fields: the test reads the patronymic column,
    [check_and_update_duplicate] raises [IndexError] and the table is as it
    was. *)
Theorem same_names_without_patronymic_column_raise (o d : row) :
  o !! 0 = d !! 0 -> o !! 1 = d !! 1 ->
  2 <= length o -> 2 <= length d -> length o = 2 \/ length d = 2 ->
  check_and_update_duplicate [o; d] = (Raise IndexError, [o; d]).
Proof.
  intros H0 H1 Ho Hd Hshort.
  destruct (lookup_lt_is_Some_2 o 0 ltac:(lia)) as [a0 Ha0].
  destruct (lookup_lt_is_Some_2 o 1 ltac:(lia)) as [a1 Ha1].
  assert (d !! 0 = Some a0) as Hb0 by congruence.
  assert (d !! 1 = Some a1) as Hb1 by congruence.
  assert (same_person 0 1 [o; d] = (Raise IndexError, [o; d])) as Hsame.
  { unfold same_person.
    rewrite (bind_ok _ _ _ _ _ (read_cell_ok [o; d] 0 0 o a0 eq_refl Ha0)).
    rewrite (bind_ok _ _ _ _ _ (read_cell_ok [o; d] 1 0 d a0 eq_refl Hb0)).
    replace (pystr_eqb a0 a0) with true by (symmetry; now apply pystr_eqb_true).
    cbn [negb].
    rewrite (bind_ok _ _ _ _ _ (read_cell_ok [o; d] 0 1 o a1 eq_refl Ha1)).
    rewrite (bind_ok _ _ _ _ _ (read_cell_ok [o; d] 1 1 d a1 eq_refl Hb1)).
    replace (pystr_eqb a1 a1) with true by (symmetry; now apply pystr_eqb_true).
    cbn [negb].
    destruct (decide (length o = 2)) as [Ho2|Ho2].
    - now rewrite (bind_raise _ _ _ _ _
                     (read_cell_no_column [o; d] 0 2 o eq_refl ltac:(lia))).
    - destruct (lookup_lt_is_Some_2 o 2 ltac:(lia)) as [a2 Ha2].
      rewrite (bind_ok _ _ _ _ _ (read_cell_ok [o; d] 0 2 o a2 eq_refl Ha2)).
      now rewrite (bind_raise _ _ _ _ _
                     (read_cell_no_column [o; d] 1 2 d eq_refl ltac:(lia))). }
  assert (scan_pair 0 1 [] [o; d] = (Raise IndexError, [o; d])) as Hpair
    by (unfold scan_pair; now rewrite (bind_raise _ _ _ _ _ Hsame)).
  assert (scan_row 0 [] [o; d] = (Raise IndexError, [o; d])) as Hrow.
  { unfold scan_row, bind at 1, table_len.
    cbn [length range Nat.sub Nat.add seq for_fold].
    now rewrite (bind_raise _ _ _ _ _ Hpair). }
  assert (duplicate_scan [o; d] = (Raise IndexError, [o; d])) as Hscan.
  { unfold duplicate_scan, bind at 1, table_len.
    cbn [length range Nat.sub seq for_fold].
    now rewrite (bind_raise _ _ _ _ _ Hrow). }
  unfold check_and_update_duplicate.
  now rewrite (bind_raise _ _ _ _ _ Hscan).
Qed.

Lemma same_names_without_patronymic_column_witness :
  check_and_update_duplicate
    [[py "Ivanov"; py "Ivan"]; [py "Ivanov"; py "Ivan"; py "Petrovich"]]
  = (Raise IndexError,
     [[py "Ivanov"; py "Ivan"]; [py "Ivanov"; py "Ivan"; py "Petrovich"]]).
Proof.
  apply (same_names_without_patronymic_column_raise
           [py "Ivanov"; py "Ivan"] [py "Ivanov"; py "Ivan"; py "Petrovich"]);
    [reflexivity | reflexivity | simpl; lia | simpl; lia | now left].
Defined.
